(** * angular-maps: marker icon cache, Bing layer wrapper and Bing map service

    A shallow embedding of [src/models/marker.ts], [models/binglayer.ts] and
    [services/bingmapservice.ts].

    - JavaScript numbers are IEEE-754 doubles: the kernel's primitive floats.
    - An optional field is an [option]; [None] is the absent ([undefined])
      field, which [== null] treats like [null].
    - The [IMarkerIconInfo] objects live in a store and are passed by
      reference, because the code assigns [iconInfo.size] on the caller's
      object and the deferred [onload] handlers read the object again later.
      [ISize] and [IPoint] objects are never written in place by the code, so
      they are plain values.
    - What the browser computes (rasterising a canvas, measuring text, number
      formatting, trigonometry) is the interface [Host]. *)

From Stdlib Require Import PrimFloat.
From stdpp Require Import gmap strings list pretty.

Set Warnings "-inexact-float".
Set Default Proof Using "Type".

(** ** JavaScript values *)

Definition number := float.
Bind Scope float_scope with number.

Definition Math_PI : number := 3.141592653589793%float.

(** [if (x)] on a number: [0], [-0] and [NaN] are falsy. *)
Definition truthy_number (x : number) : bool :=
  negb (PrimFloat.eqb x 0) && negb (PrimFloat.is_nan x).

(** [if (s)] on a string: only the empty string is falsy. *)
Definition truthy_string (s : string) : bool := negb (bool_decide (s = "")).

(** [x || d] on an optional string. *)
Definition or_string (x : option string) (d : string) : string :=
  match x with
  | Some s => if truthy_string s then s else d
  | None => d
  end.

(** [x || d] on an optional number. *)
Definition or_number (x : option number) (d : number) : number :=
  match x with
  | Some n => if truthy_number n then n else d
  | None => d
  end.

(** Numeric coercion of an optional number in arithmetic: [undefined] is [NaN]. *)
Definition ToNumber (x : option number) : number := default PrimFloat.nan x.

(** String coercion of an optional string argument. *)
Definition ToString (x : option string) : string := default "undefined" x.

(** The double quote character, as a one-character string. *)
Definition dq : string := String (Ascii.ascii_of_nat 34) "".

Inductive Exn :=
  | Error (message : string)
  | TypeError.

Inductive Completion (A : Type) :=
  | Return (a : A)
  | Throw (e : Exn).
Arguments Return {A} a.
Arguments Throw {A} e.

Record IPoint := { x : number; y : number }.
Record ISize := { width : number; height : number }.

(** The calls made on a 2D canvas and its context, in program order. *)
Inductive CanvasCmd :=
  | SetWidth (v : number)
  | SetHeight (v : number)
  | Translate (dx dy : number)
  | Rotate (angle : number)
  | FillStyle (s : string)
  | Font (s : string)
  | TextBaseline (s : string)
  | BeginPath
  | MoveTo (px py : number)
  | LineTo (px py : number)
  | ClosePath
  | Fill
  | Stroke
  | Clip
  | Arc (cx cy r a0 a1 : number) (anticlockwise : bool)
  | FillText (s : string) (px py : number)
  | DrawImage (src : string) (iw ih : number) (dx dy : number)
  | DrawImageScaled (src : string) (iw ih : number) (dx dy dw dh : number).

(** The browser functions the code delegates to. *)
Class Host := {
  (** [canvas.toDataURL()] after the given calls on a new canvas *)
  toDataURL : list CanvasCmd → string;
  (** [ctx.measureText(text).width] under the given [ctx.font] *)
  measureText : string → string → number;
  (** the value read back from [canvas.width] / [image.width] after assigning *)
  ToUnsignedLong : number → number;
  Math_cos : number → number;
  Math_sin : number → number;
  Math_ceil : number → number;
  (** [Number.prototype.toString] *)
  Number_toString : number → string;
  (** [Number(s)] on a string *)
  Number_ofString : string → number
}.

(** ** models/marker.ts *)
Module Marker.

(** The members of [MarkerTypeId] that [CreateMarker] switches on; the
    declaration of the enumeration is not part of the sources read here. *)
Inductive MarkerTypeId :=
  | CanvasMarker
  | DynmaicCircleMarker
  | FontMarker
  | RotatedImageMarker
  | RoundedImageMarker
  | ScaledImageMarker.

(** The value found in [iconInfo.markerType]: a member handled by the switch,
    or any other value, kept as the text string concatenation gives it. *)
Inductive MarkerTypeValue :=
  | Member (t : MarkerTypeId)
  | Other (shown : string).

(** A function value supplied by the caller, named by a number. *)
Abbreviation Callback := nat.

(** A reference to an [IMarkerIconInfo] object. *)
Abbreviation loc := nat.

Record IMarkerIconInfo := {
  id : option string;
  markerType : MarkerTypeValue;
  size : option ISize;
  points : option (list IPoint);
  color : option string;
  rotation : option number;
  drawingOffset : option IPoint;
  strokeWidth : option number;
  fontName : option string;
  fontSize : option number;
  text : option string;
  url : option string;
  scale : option number;
  callback : option Callback
}.

(** [iconInfo.size = v] *)
Definition set_size (v : ISize) (i : IMarkerIconInfo) : IMarkerIconInfo :=
  {| id := id i; markerType := markerType i; size := Some v;
     points := points i; color := color i; rotation := rotation i;
     drawingOffset := drawingOffset i; strokeWidth := strokeWidth i;
     fontName := fontName i; fontSize := fontSize i; text := text i;
     url := url i; scale := scale i; callback := callback i |}.

Record IMarkerIconCacheEntry := {
  markerIconString : string;
  markerSize : ISize
}.

(** What an image created by [new Image()] keeps for its [onload] handler:
    which handler it is (with the locals the closure captured at call time),
    the [iconInfo] the closure refers to, and the attributes set on the image. *)
Inductive Handler :=
  | RotatedOnload
  | RoundedOnload (radius : number) (offset : IPoint)
  | ScaledOnload.

Record Image := {
  handler : Handler;
  closure_iconInfo : loc;
  src : string;
  width_attr : option number;
  height_attr : option number
}.

Inductive Event :=
  (** a canvas was created, drawn on and read with [toDataURL] *)
  | Drawn (cmds : list CanvasCmd)
  (** [iconInfo.callback(s, iconInfo)] was invoked *)
  | Called (cb : Callback) (s : string) (iconInfo : loc).

Record World := {
  (** [false] when [document == null] *)
  document : bool;
  (** the private static [Marker.MarkerCache] *)
  MarkerCache : gmap string IMarkerIconCacheEntry;
  (** the [IMarkerIconInfo] objects *)
  heap : gmap loc IMarkerIconInfo;
  (** images whose [onload] has not fired yet, oldest first *)
  loading : list Image;
  (** canvases rendered and callbacks invoked so far, oldest first *)
  trace : list Event
}.

Definition with_cache (c : gmap string IMarkerIconCacheEntry) (w : World) : World :=
  {| document := document w; MarkerCache := c; heap := heap w;
     loading := loading w; trace := trace w |}.

Definition with_heap (h : gmap loc IMarkerIconInfo) (w : World) : World :=
  {| document := document w; MarkerCache := MarkerCache w; heap := h;
     loading := loading w; trace := trace w |}.

Definition with_loading (l : list Image) (w : World) : World :=
  {| document := document w; MarkerCache := MarkerCache w; heap := heap w;
     loading := l; trace := trace w |}.

Definition log (e : Event) (w : World) : World :=
  {| document := document w; MarkerCache := MarkerCache w; heap := heap w;
     loading := loading w; trace := trace w ++ [e] |}.

(** The object an argument refers to; [None] when [iconInfo == null]. *)
Definition deref (w : World) (iconInfo : option loc) : option (loc * IMarkerIconInfo) :=
  r ← iconInfo; i ← heap w !! r; Some (r, i).

(** [iconInfo.size = v] on the object at [r]. *)
Definition assign_size (r : loc) (v : ISize) (w : World) : World :=
  with_heap (alter (set_size v) r (heap w)) w.

(** [iconInfo.id != null && Marker.MarkerCache.has(iconInfo.id)], then
    [Marker.MarkerCache.get(iconInfo.id)]. *)
Definition cached (w : World) (i : IMarkerIconInfo) : option IMarkerIconCacheEntry :=
  k ← id i; MarkerCache w !! k.

(** [if (iconInfo.id != null) Marker.MarkerCache.set(iconInfo.id, {...})] *)
Definition cache_set (k : option string) (s : string) (sz : ISize) (w : World) : World :=
  match k with
  | Some k => with_cache (<[k := {| markerIconString := s; markerSize := sz |}]> (MarkerCache w)) w
  | None => w
  end.

(** The three calls that turn the canvas around its centre, made when
    [iconInfo.rotation] is truthy; [cw] and [ch] are [c.width] and [c.height]. *)
Definition rotate_about_centre (rot : option number) (cw ch : number) : list CanvasCmd :=
  match rot with
  | Some a =>
      if truthy_number a then
        [ Translate (cw * 0.5) (ch * 0.5);
          Rotate (a * Math_PI / 180);
          Translate (- cw * 0.5) (- ch * 0.5) ]%float
      else []
  | None => []
  end.

Section WithHost.
Context `{Host}.

Definition canvas_marker_cmds (i : IMarkerIconInfo) (sz : ISize) (pts : list IPoint) : list CanvasCmd :=
  [ SetWidth (width sz); SetHeight (height sz) ]
  ++ rotate_about_centre (rotation i) (ToUnsignedLong (width sz)) (ToUnsignedLong (height sz))
  ++ [ FillStyle (or_string (color i) "red"); BeginPath ]
  ++ match drawingOffset i with Some o => [ MoveTo (x o) (y o) ] | None => [] end
  ++ map (λ p, LineTo (x p) (y p)) pts
  ++ [ ClosePath; Fill; Stroke ].

Definition CreateCanvasMarker (iconInfo : option loc) (w : World) : Completion string * World :=
  if negb (document w) then
    (Throw (Error "Document context (window.document) is required for canvas markers."), w)
  else
    let required := Error "IMarkerIconInfo.size, and IMarkerIConInfo.points are required for canvas markers." in
    match deref w iconInfo with
    | None => (Throw required, w)
    | Some (r, i) =>
        match size i, points i with
        | Some sz, Some pts =>
            match cached w i with
            | Some mi => (Return (markerIconString mi), assign_size r (markerSize mi) w)
            | None =>
                let c := canvas_marker_cmds i sz pts in
                let s := toDataURL c in
                (Return s, cache_set (id i) s sz (log (Drawn c) w))
            end
        | _, _ => (Throw required, w)
        end
    end.

Definition circle_svg (i : IMarkerIconInfo) (sz : ISize) : list string :=
  let strokeWidth := or_number (strokeWidth i) 0%float in
  [ "<svg xmlns=" +:+ dq +:+ "http://www.w3.org/2000/svg" +:+ dq +:+ " width=" +:+ dq;
    Number_toString (width sz);
    dq +:+ " height=" +:+ dq;
    Number_toString (width sz);
    dq +:+ "><circle cx=" +:+ dq;
    Number_toString (width sz / 2);
    dq +:+ " cy=" +:+ dq;
    Number_toString (width sz / 2);
    dq +:+ " r=" +:+ dq;
    Number_toString ((width sz / 2) - strokeWidth);
    dq +:+ " stroke=" +:+ dq;
    or_string (color i) "red";
    dq +:+ " stroke-width=" +:+ dq;
    Number_toString strokeWidth;
    dq +:+ " fill=" +:+ dq;
    or_string (color i) "red";
    dq +:+ "/></svg>" ]%float.

Definition CreateDynmaicCircleMarker (iconInfo : option loc) (w : World) : Completion string * World :=
  if negb (document w) then
    (Throw (Error "Document context (window.document) is required for dynamic circle markers."), w)
  else
    let required := Error "IMarkerIconInfo.size is required for dynamic circle markers." in
    match deref w iconInfo with
    | None => (Throw required, w)
    | Some (r, i) =>
        match size i with
        | Some sz =>
            match cached w i with
            | Some mi => (Return (markerIconString mi), assign_size r (markerSize mi) w)
            | None =>
                let s := String.concat "" (circle_svg i sz) in
                (Return s, cache_set (id i) s sz w)
            end
        | None => (Throw required, w)
        end
    end.

Definition font_marker_font (fontSize : number) (fontName : string) : string :=
  Number_toString fontSize +:+ "px " +:+ fontName.

Definition font_marker_cmds (i : IMarkerIconInfo) (fontSize : number) (fontName : string) : list CanvasCmd :=
  let font := font_marker_font fontSize fontName in
  [ Font font;
    SetWidth (measureText font (ToString (text i)));
    SetHeight fontSize ]
  ++ rotate_about_centre (rotation i)
       (ToUnsignedLong (measureText font (ToString (text i)))) (ToUnsignedLong fontSize)
  ++ [ Font font; TextBaseline "top"; FillStyle (or_string (color i) "red");
       FillText (ToString (text i)) 0%float 0%float ].

Definition CreateFontBasedMarker (iconInfo : option loc) (w : World) : Completion string * World :=
  if negb (document w) then
    (Throw (Error "Document context (window.document) is required for font based markers"), w)
  else
    let required := Error "IMarkerIconInfo.fontName, IMarkerIconInfo.fontSize and IMarkerIConInfo.text are required for font based markers." in
    match deref w iconInfo with
    | None => (Throw required, w)
    | Some (r, i) =>
        match fontName i, fontSize i with
        | Some fname, Some fsize =>
            match cached w i with
            | Some mi => (Return (markerIconString mi), assign_size r (markerSize mi) w)
            | None =>
                let font := font_marker_font fsize fname in
                let c := font_marker_cmds i fsize fname in
                let sz := {| width := ToUnsignedLong (measureText font (ToString (text i)));
                             height := ToUnsignedLong fsize |} in
                let s := toDataURL c in
                (Return s, cache_set (id i) s sz (log (Drawn c) (assign_size r sz w)))
            end
        | _, _ => (Throw required, w)
        end
    end.

(** [new Image()] with its attributes and [onload] set: the load is pending. *)
Definition start_loading (img : Image) (w : World) : World :=
  with_loading (loading w ++ [img]) w.

Definition CreateRotatedImageMarker (iconInfo : option loc) (w : World) : Completion string * World :=
  if negb (document w) then
    (Throw (Error "Document context (window.document) is required for rotated image markers"), w)
  else
    let required := Error "IMarkerIconInfo.rotation, IMarkerIconInfo.url and IMarkerIConInfo.callback are required for rotated image markers." in
    match deref w iconInfo with
    | None => (Throw required, w)
    | Some (r, i) =>
        match rotation i, url i, callback i with
        | Some _, Some u, Some cb =>
            match cached w i with
            | Some mi =>
                (Return "", log (Called cb (markerIconString mi) r) (assign_size r (markerSize mi) w))
            | None =>
                let img := {| handler := RotatedOnload; closure_iconInfo := r; src := u;
                              width_attr := (λ sz, ToUnsignedLong (width sz)) <$> size i;
                              height_attr := (λ sz, ToUnsignedLong (height sz)) <$> size i |} in
                (Return "", start_loading img w)
            end
        | _, _, _ => (Throw required, w)
        end
    end.

Definition CreateRoundedImageMarker (iconInfo : option loc) (w : World) : Completion string * World :=
  if negb (document w) then
    (Throw (Error "Document context (window.document) is required for rounded image markers"), w)
  else
    let required := Error "IMarkerIconInfo.size, IMarkerIconInfo.url and IMarkerIConInfo.callback are required for rounded image markers." in
    match deref w iconInfo with
    | None => (Throw required, w)
    | Some (r, i) =>
        match size i, url i, callback i with
        | Some sz, Some u, Some cb =>
            match cached w i with
            | Some mi =>
                (Return "", log (Called cb (markerIconString mi) r) (assign_size r (markerSize mi) w))
            | None =>
                let radius := (width sz / 2)%float in
                let offset := default {| x := 0%float; y := 0%float |} (drawingOffset i) in
                let img := {| handler := RoundedOnload radius offset; closure_iconInfo := r;
                              src := u; width_attr := None; height_attr := None |} in
                (Return "", start_loading img w)
            end
        | _, _, _ => (Throw required, w)
        end
    end.

Definition CreateScaledImageMarker (iconInfo : option loc) (w : World) : Completion string * World :=
  if negb (document w) then
    (Throw (Error "Document context (window.document) is required for scaled image markers"), w)
  else
    let required := Error "IMarkerIconInfo.scale, IMarkerIconInfo.url and IMarkerIConInfo.callback are required for scaled image markers." in
    match deref w iconInfo with
    | None => (Throw required, w)
    | Some (r, i) =>
        match scale i, url i, callback i with
        | Some _, Some u, Some cb =>
            match cached w i with
            | Some mi =>
                (Return "", log (Called cb (markerIconString mi) r) (assign_size r (markerSize mi) w))
            | None =>
                let img := {| handler := ScaledOnload; closure_iconInfo := r; src := u;
                              width_attr := None; height_attr := None |} in
                (Return "", start_loading img w)
            end
        | _, _, _ => (Throw required, w)
        end
    end.

Definition CreateMarker (iconInfo : option loc) (w : World) : Completion string * World :=
  match deref w iconInfo with
  | None => (Throw TypeError, w)
  | Some (_, i) =>
      match markerType i with
      | Member CanvasMarker => CreateCanvasMarker iconInfo w
      | Member DynmaicCircleMarker => CreateDynmaicCircleMarker iconInfo w
      | Member FontMarker => CreateFontBasedMarker iconInfo w
      | Member RotatedImageMarker => CreateRotatedImageMarker iconInfo w
      | Member RoundedImageMarker => CreateRoundedImageMarker iconInfo w
      | Member ScaledImageMarker => CreateScaledImageMarker iconInfo w
      | Other shown => (Throw (Error ("Unsupported marker type: " +:+ shown)), w)
      end
  end.

(** *** The deferred [image.onload] handlers *)

(** [image.width] and [image.height] inside a handler: the attribute when the
    code set one, else the dimension of the picture that was loaded. *)
Definition image_width (img : Image) (natural : ISize) : number :=
  default (width natural) (width_attr img).

Definition image_height (img : Image) (natural : ISize) : number :=
  default (height natural) (height_attr img).

(** [iconInfo.callback(s, iconInfo)]; with no callback left on the object the
    call is a TypeError that ends the handler. *)
Definition invoke (cb : option Callback) (s : string) (r : loc) (w : World) : World :=
  match cb with
  | Some f => log (Called f s r) w
  | None => w
  end.

(** The common end of the three handlers: [iconInfo.size = {width: c.width,
    height: c.height}], [toDataURL], the cache write and the callback. *)
Definition deliver (r : loc) (i : IMarkerIconInfo) (cmds : list CanvasCmd) (sz : ISize)
    (w : World) : World :=
  let s := toDataURL cmds in
  invoke (callback i) s r (cache_set (id i) s sz (log (Drawn cmds) (assign_size r sz w))).

Definition rotated_onload (img : Image) (natural : ISize) (i : IMarkerIconInfo) (w : World) : World :=
  let iw := image_width img natural in
  let ih := image_height img natural in
  let rads := (ToNumber (rotation i) * Math_PI / 180)%float in
  let cw := PrimFloat.abs (Math_ceil (iw * Math_cos rads + ih * Math_sin rads)%float) in
  let ch := PrimFloat.abs (Math_ceil (iw * Math_sin rads + ih * Math_cos rads)%float) in
  let cmds :=
    [ SetWidth cw; SetHeight ch;
      Translate (ToUnsignedLong cw / 2) (ToUnsignedLong ch / 2);
      Rotate rads;
      DrawImage (src img) iw ih (- iw / 2) (- ih / 2) ]%float in
  deliver (closure_iconInfo img) i cmds
    {| width := ToUnsignedLong cw; height := ToUnsignedLong ch |} w.

Definition rounded_onload (img : Image) (natural : ISize) (radius : number) (offset : IPoint)
    (i : IMarkerIconInfo) (w : World) : World :=
  match size i with
  | None => w (* TypeError on [iconInfo.size.width] *)
  | Some sz =>
      let cmds :=
        [ SetWidth (width sz); SetHeight (width sz);
          BeginPath; Arc radius radius radius 0 (2 * Math_PI) false; Fill; Clip;
          DrawImageScaled (src img) (image_width img natural) (image_height img natural)
            (x offset) (y offset) (width sz) (width sz) ]%float in
      deliver (closure_iconInfo img) i cmds
        {| width := ToUnsignedLong (width sz); height := ToUnsignedLong (width sz) |} w
  end.

Definition scaled_onload (img : Image) (natural : ISize) (i : IMarkerIconInfo) (w : World) : World :=
  let cw := (image_width img natural * ToNumber (scale i))%float in
  let ch := (image_height img natural * ToNumber (scale i))%float in
  let cmds :=
    [ SetWidth cw; SetHeight ch;
      DrawImageScaled (src img) (image_width img natural) (image_height img natural)
        0 0 (ToUnsignedLong cw) (ToUnsignedLong ch) ]%float in
  deliver (closure_iconInfo img) i cmds
    {| width := ToUnsignedLong cw; height := ToUnsignedLong ch |} w.

(** The handler of [img] runs on a picture of the given natural size. It reads
    the [iconInfo] object as it is at that moment. *)
Definition fire (img : Image) (natural : ISize) (w : World) : World :=
  if negb (document w) then w
  else
    match heap w !! closure_iconInfo img with
    | None => w
    | Some i =>
        match handler img with
        | RotatedOnload => rotated_onload img natural i w
        | RoundedOnload radius offset => rounded_onload img natural radius offset i w
        | ScaledOnload => scaled_onload img natural i w
        end
    end.

(** The load event of the [n]-th pending image. *)
Definition onload (n : nat) (natural : ISize) (w : World) : World :=
  match loading w !! n with
  | Some img => fire img natural (with_loading (delete n (loading w)) w)
  | None => w
  end.

(** *** Runs: what a client of the class and the browser can do *)
Inductive Op :=
  (** the caller creates an [iconInfo] object, or assigns fields of one *)
  | Store (r : loc) (i : IMarkerIconInfo)
  (** [Marker.CreateMarker(iconInfo)] *)
  | Create (iconInfo : option loc)
  (** the browser finishes loading the [n]-th pending image *)
  | Loaded (n : nat) (natural : ISize).

Definition step (w : World) (o : Op) : World :=
  match o with
  | Store r i => with_heap (<[r := i]> (heap w)) w
  | Create a => (CreateMarker a w).2
  | Loaded n natural => onload n natural w
  end.

Definition run (ops : list Op) (w : World) : World := foldl step w ops.

Definition is_Loaded (o : Op) : bool :=
  match o with Loaded _ _ => true | _ => false end.

(** The fields each [Create*] function requires, as its second guard tests them. *)
Definition required (t : MarkerTypeId) (i : IMarkerIconInfo) : bool :=
  match t with
  | CanvasMarker => bool_decide (is_Some (size i)) && bool_decide (is_Some (points i))
  | DynmaicCircleMarker => bool_decide (is_Some (size i))
  | FontMarker => bool_decide (is_Some (fontName i)) && bool_decide (is_Some (fontSize i))
  | RotatedImageMarker =>
      bool_decide (is_Some (rotation i)) && bool_decide (is_Some (url i))
      && bool_decide (is_Some (callback i))
  | RoundedImageMarker =>
      bool_decide (is_Some (size i)) && bool_decide (is_Some (url i))
      && bool_decide (is_Some (callback i))
  | ScaledImageMarker =>
      bool_decide (is_Some (scale i)) && bool_decide (is_Some (url i))
      && bool_decide (is_Some (callback i))
  end.

(** The three marker types whose image arrives through [iconInfo.callback]. *)
Definition by_callback (t : MarkerTypeId) : bool :=
  match t with
  | RotatedImageMarker | RoundedImageMarker | ScaledImageMarker => true
  | _ => false
  end.

(** The [Create*] function [CreateMarker] dispatches a member to. *)
Definition Create_ (t : MarkerTypeId) : option loc → World → Completion string * World :=
  match t with
  | CanvasMarker => CreateCanvasMarker
  | DynmaicCircleMarker => CreateDynmaicCircleMarker
  | FontMarker => CreateFontBasedMarker
  | RotatedImageMarker => CreateRotatedImageMarker
  | RoundedImageMarker => CreateRoundedImageMarker
  | ScaledImageMarker => CreateScaledImageMarker
  end.

(** *** Vocabulary of the statements below *)

(** What a cache hit does, for a member [t] whose guards pass: the outcome
    named by the first [return] of each [Create*] function. *)
Definition hit (t : MarkerTypeId) (r : loc) (i : IMarkerIconInfo)
    (e : IMarkerIconCacheEntry) (w : World) : Completion string * World :=
  if by_callback t
  then (Return "", invoke (callback i) (markerIconString e) r (assign_size r (markerSize e) w))
  else (Return (markerIconString e), assign_size r (markerSize e) w).

(** The image a call of type [t] hands to its caller: the string it returns,
    or, for the types that answer through [iconInfo.callback], the string the
    callback received during the call. *)
Definition image_of (t : MarkerTypeId) (before : World) (out : Completion string * World)
    : option string :=
  if by_callback t then
    match drop (length (trace before)) (trace out.2) with
    | [Called _ s _] => Some s
    | _ => None
    end
  else
    match out.1 with
    | Return s => Some s
    | Throw _ => None
    end.

End WithHost.
End Marker.

(** ** models/binglayer.ts *)
Module BingLayer.

(** A native primitive ([Microsoft.Maps.IPrimitive]), named by a number. *)
Abbreviation Primitive := nat.

(** An entity is [Marker|InfoWindow|any]: an object, given by the properties
    that hold an object. A property that is absent reads as [undefined]. *)
Abbreviation Entity := (gmap string Primitive).

(** The calls forwarded to the native [Microsoft.Maps.Layer] and the property
    assigned on it. An argument is [None] when [undefined] is passed. *)
Inductive NativeCall :=
  | add (p : option Primitive)
  | remove (p : option Primitive)
  | set_id (s : string).

(** The wrapper holds the native handle [_layer]: the calls made on it so
    far, oldest first, and the native method [getId], whose answer after
    given calls is the SDK's to choose. *)
Record BingLayer := {
  _layer : list NativeCall;
  getId : list NativeCall → string
}.

Definition call (c : NativeCall) (l : BingLayer) : BingLayer :=
  {| _layer := _layer l ++ [c]; getId := getId l |}.

Record ILayerOptions := { id : number }.

Definition AddEntity (entity : Entity) (l : BingLayer) : BingLayer :=
  if bool_decide (is_Some (entity !! "NativePrimitve"))
  then call (add (entity !! "NativePrimitve")) l
  else l.

Definition RemoveEntity (entity : Entity) (l : BingLayer) : BingLayer :=
  if bool_decide (is_Some (entity !! "NativePRimitive"))
  then call (remove (entity !! "NativePrimitve")) l
  else l.

Definition SetOptions `{Host} (options : ILayerOptions) (l : BingLayer) : BingLayer :=
  call (set_id (Number_toString (id options))) l.

Definition GetOptions `{Host} (l : BingLayer) : ILayerOptions :=
  {| id := Number_ofString (getId l (_layer l)) |}.

End BingLayer.

(** ** services/bingmapservice.ts *)
Module BingMapService.

(** A [Microsoft.Maps.Map] created by [new], named by a number. *)
Abbreviation MapHandle := nat.

(** A [Promise<Microsoft.Maps.Map>]. *)
Abbreviation PromiseId := nat.

(** An [HTMLElement]. *)
Abbreviation HTMLElement := nat.

Record Point := { px : number; py : number }.

Record IMapLoadOptions := {
  credentials : option string;
  load_rest : list (string * string)
}.

Record IPushpinOptions := {
  icon : option string;
  anchor : option Point;
  textOffset : option Point;
  pushpin_rest : list (string * string)
}.

(** [services/bingconversions.ts] and the option interfaces are not part of
    the sources read here: the translations are taken as given. *)
Class BingConversions := {
  IMapOptions : Type;
  IMarkerOptions : Type;
  Location : Type;
  TranslateLoadOptions : IMapOptions → IMapLoadOptions;
  (** [BingConversions.TranslateLocation(options.position)] *)
  TranslateLocation_position : IMarkerOptions → Location;
  TranslateMarkerOptions : IMarkerOptions → IPushpinOptions
}.

Inductive NativeCall :=
  (** [new Microsoft.Maps.Map(el, o)], which gave the handle [m] *)
  | NewMap (m : MapHandle) (el : HTMLElement) (o : IMapLoadOptions)
  (** [m.dispose()] *)
  | Dispose (m : MapHandle).

Record Service := {
  _map : option PromiseId;
  _mapInstance : option MapHandle;
  (** the promise that [_mapResolver] settles *)
  _mapResolver : PromiseId;
  (** [_config.apiKey] *)
  apiKey : string;
  (** the promises created so far: pending ([None]) or fulfilled with a map *)
  promises : gmap PromiseId (option MapHandle);
  (** the calls made on the native SDK so far, oldest first *)
  native : list NativeCall
}.

(** The constructor. *)
Definition new (key : string) : Service :=
  {| _map := Some 0; _mapInstance := None; _mapResolver := 0; apiKey := key;
     promises := {[ 0 := None ]}; native := [] |}.

(** The effect of one native call on the set of maps that exist. *)
Definition live_step (s : gset MapHandle) (c : NativeCall) : gset MapHandle :=
  match c with
  | NewMap m _ _ => s ∪ {[ m ]}
  | Dispose m => s ∖ {[ m ]}
  end.

(** The maps created and not disposed of. *)
Definition live (calls : list NativeCall) : gset MapHandle := foldl live_step ∅ calls.

(** What holds of the service between two operations: the only map that
    exists is the stored instance, a map's handle is older than the calls
    after it, [_mapResolver] settles the promise in [_map], and that promise
    is fulfilled with the stored instance or pending when there is none. *)
Definition consistent (s : Service) : Prop :=
  live (native s) = from_option singleton ∅ (_mapInstance s)
  ∧ (∀ m el o, NewMap m el o ∈ native s → m < length (native s))
  ∧ _map s = Some (_mapResolver s)
  ∧ promises s !! _mapResolver s = Some (_mapInstance s).

Definition DisposeMap (s : Service) : Service :=
  match _map s, _mapInstance s with
  | None, None => s
  | _, Some m =>
      let p := fresh (dom (promises s)) in
      {| _map := Some p; _mapInstance := None; _mapResolver := p; apiKey := apiKey s;
         promises := <[ p := None ]> (promises s);
         native := native s ++ [Dispose m] |}
  | _, None => s
  end.

(** [resolve(map)] of the promise [p]: a settled promise stays as it is. *)
Definition resolve (p : PromiseId) (m : MapHandle)
    (ps : gmap PromiseId (option MapHandle)) : gmap PromiseId (option MapHandle) :=
  match ps !! p with
  | Some None => <[ p := Some m ]> ps
  | _ => ps
  end.

(** [if (!o.credentials) o.credentials = this._config.apiKey] *)
Definition default_credentials (key : string) (o : IMapLoadOptions) : IMapLoadOptions :=
  match credentials o with
  | Some c => if truthy_string c then o else {| credentials := Some key; load_rest := load_rest o |}
  | None => {| credentials := Some key; load_rest := load_rest o |}
  end.

Section WithConversions.
Context `{BingConversions}.

(** The body of [CreateMap], which runs once the loader's promise is
    fulfilled. The new map's handle is the number of native calls made
    before it, which no earlier map has. *)
Definition CreateMap (el : HTMLElement) (mapOptions : IMapOptions) (s : Service) : Service :=
  let s1 := match _mapInstance s with Some _ => DisposeMap s | None => s end in
  let o := default_credentials (apiKey s1) (TranslateLoadOptions mapOptions) in
  let map := length (native s1) in
  {| _map := _map s1; _mapInstance := Some map; _mapResolver := _mapResolver s1;
     apiKey := apiKey s1;
     promises := resolve (_mapResolver s1) map (promises s1);
     native := native s1 ++ [NewMap map el o] |}.

Inductive Op :=
  | DoCreateMap (el : HTMLElement) (mapOptions : IMapOptions)
  | DoDisposeMap.

Definition step (s : Service) (o : Op) : Service :=
  match o with
  | DoCreateMap el mapOptions => CreateMap el mapOptions s
  | DoDisposeMap => DisposeMap s
  end.

Definition run (ops : list Op) (s : Service) : Service := foldl step s ops.

Record Pushpin := {
  pushpin_location : Location;
  pushpin_options : IPushpinOptions
}.

(** The [iconInfo] literal of [CreateMarker]. *)
Definition default_iconInfo : Marker.IMarkerIconInfo :=
  {| Marker.id := None;
     Marker.markerType := Marker.Member Marker.CanvasMarker;
     Marker.rotation := Some 45%float;
     Marker.drawingOffset := Some {| x := 24; y := 0 |}%float;
     Marker.points := Some [ {| x := 10; y := 40 |}; {| x := 24; y := 30 |};
                             {| x := 38; y := 40 |}; {| x := 24; y := 0 |} ]%float;
     Marker.color := Some "#f00";
     Marker.size := Some {| width := 48; height := 48 |}%float;
     Marker.strokeWidth := None; Marker.fontName := None; Marker.fontSize := None;
     Marker.text := None; Marker.url := None; Marker.scale := None;
     Marker.callback := None |}.

(** The body of [CreateMarker], which runs once [_map] is fulfilled: the
    marker world it acts on, and [map.entities] as the list of pushpins
    pushed so far. The object literal is a new object of the store. *)
Definition CreateMarker `{Host} (options : IMarkerOptions)
    (w : Marker.World) (entities : list Pushpin)
    : Completion Pushpin * Marker.World * list Pushpin :=
  let loc := TranslateLocation_position options in
  let o := TranslateMarkerOptions options in
  match icon o with
  | None =>
      let r := fresh (dom (Marker.heap w)) in
      let w0 := Marker.with_heap (<[ r := default_iconInfo ]> (Marker.heap w)) w in
      match Marker.CreateMarker (Some r) w0 with
      | (Throw e, w1) => (Throw e, w1, entities)
      | (Return s, w1) =>
          match Marker.heap w1 !! r ≫= Marker.size with
          | None => (Throw TypeError, w1, entities)
          | Some sz =>
              let o1 := {| icon := Some s;
                           anchor := Some {| px := width sz * 0.75; py := height sz * 0.25 |}%float;
                           textOffset := Some {| px := 0; py := height sz * 0.66 |}%float;
                           pushpin_rest := pushpin_rest o |} in
              let pushpin := {| pushpin_location := loc; pushpin_options := o1 |} in
              (Return pushpin, w1, entities ++ [pushpin])
          end
      end
  | Some _ =>
      let pushpin := {| pushpin_location := loc; pushpin_options := o |} in
      (Return pushpin, w, entities ++ [pushpin])
  end.

End WithConversions.
End BingMapService.

(** ** Concrete hosts and inputs for the examples *)

(** A host that agrees with a browser on what the examples below use: small
    non-negative integers survive the canvas width unchanged, and the cosine
    and sine are those of angle 0. Every text measures 40 pixels, and the
    picture of a canvas is named after the number of calls made on it. *)
Definition example_host : Host :=
  {| toDataURL cmds := "data:image/png;base64," +:+ pretty (length cmds);
     measureText _ _ := 40%float;
     ToUnsignedLong v := v;
     Math_cos _ := 1%float;
     Math_sin _ := 0%float;
     Math_ceil v := v;
     Number_toString v :=
       if PrimFloat.eqb v 0 then "0"
       else if PrimFloat.eqb v 5 then "5"
       else if PrimFloat.eqb v 10 then "10"
       else if PrimFloat.eqb v 16 then "16"
       else "NaN";
     Number_ofString s :=
       if bool_decide (s = "0") then 0%float
       else if bool_decide (s = "5") then 5%float
       else if bool_decide (s = "10") then 10%float
       else if bool_decide (s = "16") then 16%float
       else PrimFloat.nan |}.

(** Map options are the credentials, marker options the icon. *)
Definition example_conversions : BingMapService.BingConversions :=
  {| BingMapService.IMapOptions := option string;
     BingMapService.IMarkerOptions := option string;
     BingMapService.Location := unit;
     BingMapService.TranslateLoadOptions c :=
       {| BingMapService.credentials := c; BingMapService.load_rest := [] |};
     BingMapService.TranslateLocation_position _ := ();
     BingMapService.TranslateMarkerOptions ic :=
       {| BingMapService.icon := ic; BingMapService.anchor := None;
          BingMapService.textOffset := None; BingMapService.pushpin_rest := [] |} |}.

Module Examples.
Import Marker.

(** An [iconInfo] with the given id and marker type and no other field. *)
Definition blank (k : option string) (t : MarkerTypeId) : IMarkerIconInfo :=
  {| id := k; markerType := Member t; size := None; points := None; color := None;
     rotation := None; drawingOffset := None; strokeWidth := None; fontName := None;
     fontSize := None; text := None; url := None; scale := None; callback := None |}.

Definition square (n : number) : ISize := {| width := n; height := n |}.

Definition with_url (u : string) (cb : Callback) (i : IMarkerIconInfo) : IMarkerIconInfo :=
  {| id := id i; markerType := markerType i; size := size i; points := points i;
     color := color i; rotation := rotation i; drawingOffset := drawingOffset i;
     strokeWidth := strokeWidth i; fontName := fontName i; fontSize := fontSize i;
     text := text i; url := Some u; scale := scale i; callback := Some cb |}.

Definition with_points (pts : list IPoint) (i : IMarkerIconInfo) : IMarkerIconInfo :=
  {| id := id i; markerType := markerType i; size := size i; points := Some pts;
     color := color i; rotation := rotation i; drawingOffset := drawingOffset i;
     strokeWidth := strokeWidth i; fontName := fontName i; fontSize := fontSize i;
     text := text i; url := url i; scale := scale i; callback := callback i |}.

Definition with_rotation (a : number) (i : IMarkerIconInfo) : IMarkerIconInfo :=
  {| id := id i; markerType := markerType i; size := size i; points := points i;
     color := color i; rotation := Some a; drawingOffset := drawingOffset i;
     strokeWidth := strokeWidth i; fontName := fontName i; fontSize := fontSize i;
     text := text i; url := url i; scale := scale i; callback := callback i |}.

Definition with_scale (k : number) (i : IMarkerIconInfo) : IMarkerIconInfo :=
  {| id := id i; markerType := markerType i; size := size i; points := points i;
     color := color i; rotation := rotation i; drawingOffset := drawingOffset i;
     strokeWidth := strokeWidth i; fontName := fontName i; fontSize := fontSize i;
     text := text i; url := url i; scale := Some k; callback := callback i |}.

Definition with_font (name : string) (px : number) (i : IMarkerIconInfo) : IMarkerIconInfo :=
  {| id := id i; markerType := markerType i; size := size i; points := points i;
     color := color i; rotation := rotation i; drawingOffset := drawingOffset i;
     strokeWidth := strokeWidth i; fontName := Some name; fontSize := Some px;
     text := text i; url := url i; scale := scale i; callback := callback i |}.

(** A browser page with nothing cached and no [iconInfo] object yet. *)
Definition empty_world : World :=
  {| document := true; MarkerCache := ∅; heap := ∅; loading := []; trace := [] |}.

(** The cache entry of the examples: the picture [img] of size 10 by 10. *)
Definition entry_a : IMarkerIconCacheEntry :=
  {| markerIconString := "img"; markerSize := square 10 |}.

(** Three [iconInfo] objects that all carry the id [a]: a canvas marker with
    size and points, a rotated image marker, and a canvas marker that lacks
    its points. *)
Definition object_0 : IMarkerIconInfo :=
  with_points [] (set_size (square 5) (blank (Some "a") CanvasMarker)).

Definition object_1 : IMarkerIconInfo :=
  with_rotation 0 (with_url "u.png" 7 (blank (Some "a") RotatedImageMarker)).

Definition object_2 : IMarkerIconInfo :=
  set_size (square 5) (blank (Some "a") CanvasMarker).

(** A page on which the id [a] is cached, with the three objects at 0, 1 and 2. *)
Definition cached_world : World :=
  {| document := true;
     MarkerCache := {[ "a" := entry_a ]};
     heap := {[ 0 := object_0; 1 := object_1; 2 := object_2 ]};
     loading := []; trace := [] |}.

(** A scaled image marker with id [a] for the picture at [u], twice its size. *)
Definition scaled (u : string) : IMarkerIconInfo :=
  with_scale 2 (with_url u 7 (blank (Some "a") ScaledImageMarker)).

(** Two requests with the same id for two pictures, made before either
    picture has arrived; then the first picture, 10 by 10, arrives. *)
Definition race : list Op :=
  [ Store 0 (scaled "u1.png"); Store 1 (scaled "u2.png");
    Create (Some 0); Create (Some 1); Loaded 0 (square 10) ].

(** A circle marker and a font marker that carry no id; the font marker has
    no text either. *)
Definition idless_circle : IMarkerIconInfo :=
  set_size (square 10) (blank None DynmaicCircleMarker).

Definition textless (fname : string) (fsize : number) : IMarkerIconInfo :=
  with_font fname fsize (blank None FontMarker).

(** A page with the id-less circle marker at 0. *)
Definition idless_world : World :=
  {| document := true; MarkerCache := ∅; heap := {[ 0 := idless_circle ]};
     loading := []; trace := [] |}.

(** A page whose only object is [i], at 0. *)
Definition page_with (i : IMarkerIconInfo) : World :=
  {| document := true; MarkerCache := ∅; heap := {[ 0 := i ]};
     loading := []; trace := [] |}.

(** A dynamic circle marker of size 1 by 1 with the given id. *)
Definition circle (k : string) : IMarkerIconInfo :=
  set_size (square 1) (blank (Some k) DynmaicCircleMarker).

(** [n] circle markers with [n] different ids, each created through the
    object at 0. *)
Definition fill (n : nat) : list Op :=
  flat_map (λ j, [Store 0 (circle (pretty j)); Create (Some 0)]) (seq 0 n).

(** A canvas marker that carries no id and lacks its points. *)
Definition idless_pointless : IMarkerIconInfo :=
  set_size (square 5) (blank None CanvasMarker).

(** A page without a document: nothing cached, no object. *)
Definition page_without_document : World :=
  {| document := false; MarkerCache := ∅; heap := ∅; loading := []; trace := [] |}.

(** A marker as a layer sees it: an object whose [NativePrimitve] is [p]. *)
Definition marker_entity (p : BingLayer.Primitive) : BingLayer.Entity :=
  {[ "NativePrimitve" := p ]}.

End Examples.

(** ** Vocabulary and inputs of the further properties *)
Module MarkerEvents.
Import Marker.

Definition is_Called (e : Event) : bool :=
  match e with Called _ _ _ => true | Drawn _ => false end.

Definition is_Drawn (e : Event) : bool :=
  match e with Drawn _ => true | Called _ _ _ => false end.

End MarkerEvents.

Module BingLayerEntities.
Import BingLayer.

(** [SetEntities], as the array [p] it builds from the entities and hands to
    [_layer.setPrimitives]. *)
Definition SetEntities (entities : list Entity) : list Primitive :=
  omap (λ e : Entity, e !! "NativePrimitve") entities.

End BingLayerEntities.

Module BingMapProtocol.
Import BingMapService.

(** How far the native calls have come: no map exists, the map [m] exists,
    or the calls went wrong (a second map beside the first, or a map disposed
    of that is not the one that exists). *)
Inductive Phase :=
  | NoMap
  | OneMap (m : MapHandle)
  | Broken.

Definition phase_step (ph : Phase) (c : NativeCall) : Phase :=
  match ph, c with
  | NoMap, NewMap m _ _ => OneMap m
  | OneMap m, Dispose m' => if decide (m = m') then NoMap else Broken
  | _, _ => Broken
  end.

Definition phase (calls : list NativeCall) : Phase := foldl phase_step NoMap calls.

(** The options carry credentials that are not empty, or the key [key]. *)
Definition has_credentials (key : string) (c : NativeCall) : bool :=
  match c with
  | NewMap _ _ o =>
      match credentials o with
      | Some s => truthy_string s || bool_decide (s = key)
      | None => false
      end
  | Dispose _ => true
  end.

(** What the further properties keep between two operations of the service. *)
Definition in_step (s : Service) : Prop :=
  phase (native s) = from_option OneMap NoMap (_mapInstance s)
  ∧ Forall (λ c, has_credentials (apiKey s) c = true) (native s).

(** What stays true of a map [m] that was disposed of and of the promise
    [p] that was fulfilled with it. *)
Definition stale (m : MapHandle) (p : PromiseId) (s : Service) : Prop :=
  promises s !! p = Some (Some m) ∧ _map s ≠ Some p
  ∧ _mapInstance s ≠ Some m ∧ m < length (native s).

End BingMapProtocol.

Module MoreExamples.
Import Marker Examples.

(** The image a scaled image marker for [u1.png] waits for. *)
Definition pending_image : Image :=
  {| handler := ScaledOnload; closure_iconInfo := 0; src := "u1.png";
     width_attr := None; height_attr := None |}.

(** A page on which that image is loading for the object at 0. *)
Definition loading_world : World :=
  {| document := true; MarkerCache := ∅; heap := {[ 0 := scaled "u1.png" ]};
     loading := [ pending_image ]; trace := [] |}.

End MoreExamples.

(** * Properties *)

(** ** The icon cache of [Marker] *)

(** From [required t i = true] to one equation per required field. *)
Ltac required_fields Hreq :=
  simpl in Hreq;
  repeat match type of Hreq with
         | _ && _ = true => let H' := fresh "Hreq" in apply andb_prop in Hreq as [Hreq H']
         end;
  repeat match goal with
         | H0 : bool_decide (is_Some _) = true |- _ =>
             apply bool_decide_eq_true_1 in H0 as [? H0]
         end.

Ltac unfold_Create :=
  unfold Marker.Create_, Marker.CreateCanvasMarker, Marker.CreateDynmaicCircleMarker,
    Marker.CreateFontBasedMarker, Marker.CreateRotatedImageMarker,
    Marker.CreateRoundedImageMarker, Marker.CreateScaledImageMarker.

(** A call splits on its guards, on the fields it requires and on the cache. *)
Ltac Create_cases := unfold_Create; repeat case_match; simplify_eq/=.

(** The six members, one goal closed by the same lemma about [Create_]. *)
Ltac by_member lem :=
  first [ apply (lem Marker.CanvasMarker) | apply (lem Marker.DynmaicCircleMarker)
        | apply (lem Marker.FontMarker) | apply (lem Marker.RotatedImageMarker)
        | apply (lem Marker.RoundedImageMarker) | apply (lem Marker.ScaledImageMarker) ].

Section MarkerFacts.
Import Marker.
Context `{Host}.

Lemma deref_Some w r i : heap w !! r = Some i → deref w (Some r) = Some (r, i).
Proof. intros Hr. unfold deref. simpl. by rewrite Hr. Qed.

Lemma cached_Some w i k e : id i = Some k → MarkerCache w !! k = Some e → cached w i = Some e.
Proof. intros Hk He. unfold cached. rewrite Hk. simpl. done. Qed.

Lemma cached_no_id w i : id i = None → cached w i = None.
Proof. intros Hk. unfold cached. by rewrite Hk. Qed.

Lemma CreateMarker_Member a w r i t :
  deref w a = Some (r, i) → markerType i = Member t → CreateMarker a w = Create_ t a w.
Proof. intros Hd Ht. unfold CreateMarker. rewrite Hd, Ht. by destruct t. Qed.

(** *** Cache hits *)

Lemma Create_hit t w r i k e :
  document w = true → heap w !! r = Some i → required t i = true →
  id i = Some k → MarkerCache w !! k = Some e →
  Create_ t (Some r) w = hit t r i e w.
Proof.
  intros Hdoc Hr Hreq Hk He.
  pose proof (deref_Some _ _ _ Hr) as Hd.
  pose proof (cached_Some _ _ _ _ Hk He) as Hc.
  destruct t; required_fields Hreq; unfold_Create; unfold hit;
    rewrite Hdoc, Hd, Hc; clear Hc Hk; cbn [negb by_callback];
    repeat match goal with Hf : _ i = Some _ |- _ => rewrite Hf; clear Hf end;
    reflexivity.
Qed.

Lemma hit_image t w r i e :
  required t i = true → image_of t w (hit t r i e w) = Some (markerIconString e).
Proof.
  intros Hreq. unfold image_of, hit.
  destruct t; required_fields Hreq; cbn [by_callback]; try done;
    repeat match goal with Hf : _ i = Some _ |- _ => rewrite Hf; clear Hf end;
    simpl; rewrite drop_app_length; done.
Qed.

Lemma hit_heap t w r i e :
  heap w !! r = Some i → heap (hit t r i e w).2 = <[r := set_size (markerSize e) i]> (heap w).
Proof.
  intros Hr. unfold hit, invoke.
  assert (alter (set_size (markerSize e)) r (heap w)
          = <[r := set_size (markerSize e) i]> (heap w)) as Ha.
  { apply map_eq. intros j. destruct (decide (r = j)) as [->|Hne].
    - by rewrite lookup_alter_eq, lookup_insert_eq, Hr.
    - by rewrite lookup_alter_ne, lookup_insert_ne. }
  destruct (by_callback t); [destruct (callback i)|]; simpl; done.
Qed.

(** C1, as amended: take any of the six [Create*] functions and an
    [iconInfo] that passes its required-field check, on a page with a
    document, whose id is in the icon cache. [CreateCanvasMarker],
    [CreateDynmaicCircleMarker] and [CreateFontBasedMarker] return the cached
    image string; [CreateRotatedImageMarker], [CreateRoundedImageMarker] and
    [CreateScaledImageMarker] return the empty string and pass the cached
    image string to [iconInfo.callback]. Nothing is generated again: no
    canvas is drawn, no image starts to load, and the cache stays as it is.
    [CreateMarker] is that function when the marker type of the object is
    its own. *)
Theorem cache_hit_returns_cached_image t w r i k e :
  document w = true → heap w !! r = Some i → required t i = true →
  id i = Some k → MarkerCache w !! k = Some e →
  let out := Create_ t (Some r) w in
  out.1 = Return (if by_callback t then "" else markerIconString e)
  ∧ (if by_callback t
     then ∃ cb, callback i = Some cb
                ∧ trace out.2 = trace w ++ [Called cb (markerIconString e) r]
     else trace out.2 = trace w)
  ∧ loading out.2 = loading w
  ∧ MarkerCache out.2 = MarkerCache w
  ∧ (markerType i = Member t → CreateMarker (Some r) w = out).
Proof.
  intros Hdoc Hr Hreq Hk He out.
  assert (markerType i = Member t → CreateMarker (Some r) w = out) as Hdispatch.
  { intros Ht. apply (CreateMarker_Member _ _ r i t (deref_Some _ _ _ Hr) Ht). }
  revert Hdispatch. subst out.
  rewrite (Create_hit t w r i k e Hdoc Hr Hreq Hk He). unfold hit. intros Hdispatch.
  destruct t; required_fields Hreq; cbn [by_callback] in *; try done;
    match goal with Hf : callback i = Some _ |- _ => rewrite Hf in * end; simpl; eauto 10.
Qed.

(** C2, as amended: take any of the six [Create*] functions and an
    [iconInfo] that passes its required-field check, on a page with a
    document, whose id is in the icon cache. The call writes the cached
    [markerSize] to [iconInfo.size] and leaves every other field and object
    alone; the image it hands over is the cached one, and so is the image of
    any other request with that id that passes its check, whatever its other
    fields are and whichever function serves it. *)
Theorem cache_hit_adopts_cached_size t w r i k e :
  document w = true → heap w !! r = Some i → required t i = true →
  id i = Some k → MarkerCache w !! k = Some e →
  let out := Create_ t (Some r) w in
  heap out.2 = <[r := set_size (markerSize e) i]> (heap w)
  ∧ image_of t w out = Some (markerIconString e)
  ∧ (∀ t' r' i',
       heap w !! r' = Some i' → required t' i' = true → id i' = Some k →
       image_of t' w (Create_ t' (Some r') w) = image_of t w out)
  ∧ (markerType i = Member t → CreateMarker (Some r) w = out).
Proof.
  intros Hdoc Hr Hreq Hk He out. subst out. split_and!.
  - rewrite (Create_hit t w r i k e Hdoc Hr Hreq Hk He). by apply hit_heap.
  - rewrite (Create_hit t w r i k e Hdoc Hr Hreq Hk He). by apply hit_image.
  - intros t' r' i' Hr' Hreq' Hk'.
    rewrite (Create_hit t w r i k e Hdoc Hr Hreq Hk He).
    rewrite (Create_hit t' w r' i' k e Hdoc Hr' Hreq' Hk' He).
    by rewrite !hit_image.
  - intros Ht. apply (CreateMarker_Member _ _ r i t (deref_Some _ _ _ Hr) Ht).
Qed.

(** *** The guards *)

(** A [Create*] function throws exactly on its two guards: no document, or
    no object or an object that lacks a field [required] asks for. *)
Lemma Create_throws t a w :
  (∃ e, (Create_ t a w).1 = Throw e) ↔
  document w = false ∨ deref w a = None ∨ ∃ r i, deref w a = Some (r, i) ∧ required t i = false.
Proof.
  split.
  - intros [e He]. destruct (document w) eqn:Hdoc; [|by left]. right.
    destruct (deref w a) as [[r i]|] eqn:Hd; [|by left]. right. exists r, i. split; [done|].
    destruct (required t i) eqn:Hreq; [|done]. exfalso.
    destruct t; required_fields Hreq; revert He; unfold_Create;
      rewrite Hdoc, Hd; cbn [negb];
      repeat match goal with Hf : _ i = Some _ |- _ => rewrite Hf; clear Hf end;
      case_match; discriminate.
  - intros [Hdoc|[Hd|(r & i & Hd & Hreq)]].
    + destruct t; unfold_Create; rewrite Hdoc; eauto.
    + destruct t; unfold_Create; rewrite Hd; destruct (document w); eauto.
    + destruct t; unfold_Create; rewrite Hd; destruct (document w); simpl; eauto;
        simpl in Hreq; repeat case_match; simplify_eq/=; eauto.
Qed.

(** A call that throws has changed nothing, and throws an [Error]. *)
Lemma Create_failure t a w e :
  (Create_ t a w).1 = Throw e → (Create_ t a w).2 = w ∧ ∃ m, e = Error m.
Proof. destruct t; Create_cases; intros He; simplify_eq/=; eauto. Qed.

(** An error of a [Create*] function is never the one of the dispatcher. *)
Lemma Create_not_unsupported t a w shown :
  (Create_ t a w).1 ≠ Throw (Error ("Unsupported marker type: " +:+ shown)).
Proof. destruct t; Create_cases; discriminate. Qed.

(** The text of a font marker is not among the fields its guard tests. *)
Lemma CreateFontBasedMarker_text_unchecked w r i fname fsize :
  document w = true → heap w !! r = Some i →
  fontName i = Some fname → fontSize i = Some fsize →
  ∃ s, (CreateFontBasedMarker (Some r) w).1 = Return s.
Proof.
  intros Hdoc Hr Hn Hs. unfold CreateFontBasedMarker.
  rewrite Hdoc, (deref_Some _ _ _ Hr), Hn, Hs. simpl.
  destruct (cached w i); simpl; eauto.
Qed.

(** C4, where the code departs from the claim: a font based marker with font
    name and size but no text, on a page with a document. No error is thrown:
    the canvas is drawn with the text [undefined] and its picture returned. *)
Theorem font_marker_accepts_missing_text fname fsize :
  let i := Examples.textless fname fsize in
  text i = None
  ∧ (CreateFontBasedMarker (Some 0) (Examples.page_with i)).1
    = Return (toDataURL (font_marker_cmds i fsize fname))
  ∧ FillText "undefined" 0 0 ∈ font_marker_cmds i fsize fname.
Proof.
  intros i. split; [done|]. split.
  - unfold CreateFontBasedMarker, deref. simpl. rewrite lookup_singleton_eq. done.
  - unfold font_marker_cmds. simpl. rewrite !elem_of_cons. auto 10.
Qed.

(** C8: for an [iconInfo] object, [CreateMarker] is the [Create*] function of
    its marker type when that is one of the six members, and for any other
    value it throws the error that shows the value and changes nothing; that
    error comes out for no member. *)
Theorem CreateMarker_dispatch w a r i :
  deref w a = Some (r, i) →
  (markerType i = Member CanvasMarker → CreateMarker a w = CreateCanvasMarker a w)
  ∧ (markerType i = Member DynmaicCircleMarker →
       CreateMarker a w = CreateDynmaicCircleMarker a w)
  ∧ (markerType i = Member FontMarker → CreateMarker a w = CreateFontBasedMarker a w)
  ∧ (markerType i = Member RotatedImageMarker →
       CreateMarker a w = CreateRotatedImageMarker a w)
  ∧ (markerType i = Member RoundedImageMarker →
       CreateMarker a w = CreateRoundedImageMarker a w)
  ∧ (markerType i = Member ScaledImageMarker →
       CreateMarker a w = CreateScaledImageMarker a w)
  ∧ (∀ shown, markerType i = Other shown →
       CreateMarker a w = (Throw (Error ("Unsupported marker type: " +:+ shown)), w))
  ∧ (∀ shown, (CreateMarker a w).1 = Throw (Error ("Unsupported marker type: " +:+ shown)) →
       markerType i = Other shown).
Proof.
  intros Hd.
  repeat (split; [intros Ht; by rewrite (CreateMarker_Member a w r i _ Hd Ht)|]).
  split.
  - intros shown Ht. unfold CreateMarker. by rewrite Hd, Ht.
  - intros shown. destruct (markerType i) as [t|shown'] eqn:Ht.
    + rewrite (CreateMarker_Member a w r i t Hd Ht). intros Hthrow.
      by apply Create_not_unsupported in Hthrow.
    + unfold CreateMarker. rewrite Hd, Ht. simpl. intros [= Heq]. cbv in Heq. by rewrite Heq.
Qed.

(** *** What a call and a handler do to the cache *)

Lemma cache_set_fresh k s sz w0 w :
  MarkerCache w = MarkerCache w0 → (k ≫= (MarkerCache w0 !!.)) = None →
  MarkerCache w0 ⊆ MarkerCache (cache_set k s sz w).
Proof.
  intros Hw Hk. destruct k as [k|]; simpl in *; rewrite Hw; [|done].
  by apply insert_subseteq.
Qed.

Lemma cache_set_dom k s sz w :
  dom (MarkerCache w) ⊆ dom (MarkerCache (cache_set k s sz w)).
Proof. destruct k as [k|]; simpl; [|done]. rewrite dom_insert_L. set_solver. Qed.

(** No [Create*] call replaces or removes an entry. *)
Lemma Create_cache t a w : MarkerCache w ⊆ MarkerCache (Create_ t a w).2.
Proof. destruct t; Create_cases; try done; apply cache_set_fresh; done. Qed.

Lemma CreateMarker_cache a w : MarkerCache w ⊆ MarkerCache (CreateMarker a w).2.
Proof.
  unfold CreateMarker. destruct (deref w a) as [[r i]|] eqn:Hd; [|done].
  destruct (markerType i) as [t|shown]; [|done].
  destruct t; by_member Create_cache.
Qed.

Lemma Create_document t a w : document (Create_ t a w).2 = document w.
Proof. destruct t; Create_cases; try done; unfold cache_set; case_match; done. Qed.

Lemma CreateMarker_document a w : document (CreateMarker a w).2 = document w.
Proof.
  unfold CreateMarker. destruct (deref w a) as [[r i]|] eqn:Hd; [|done].
  destruct (markerType i) as [t|shown]; [|done].
  destruct t; by_member Create_document.
Qed.

Lemma deliver_dom r i cmds sz w :
  dom (MarkerCache w) ⊆ dom (MarkerCache (deliver r i cmds sz w)).
Proof.
  unfold deliver, invoke. destruct (callback i); simpl;
    (etrans; [|apply cache_set_dom]); done.
Qed.

Lemma fire_dom img natural w :
  dom (MarkerCache w) ⊆ dom (MarkerCache (fire img natural w)).
Proof.
  unfold fire, rotated_onload, rounded_onload, scaled_onload.
  repeat case_match; try done; apply deliver_dom.
Qed.

Lemma onload_dom n natural w :
  dom (MarkerCache w) ⊆ dom (MarkerCache (onload n natural w)).
Proof.
  unfold onload. destruct (loading w !! n) as [img|]; [|done].
  apply (fire_dom img natural (with_loading _ w)).
Qed.

(** *** Runs *)

Lemma run_app ops1 ops2 w : run (ops1 ++ ops2) w = run ops2 (run ops1 w).
Proof. apply foldl_app. Qed.

Lemma step_dom w o : dom (MarkerCache w) ⊆ dom (MarkerCache (step w o)).
Proof.
  destruct o as [r i|a|n natural]; simpl.
  - done.
  - apply subseteq_dom, CreateMarker_cache.
  - apply onload_dom.
Qed.

Lemma run_dom ops w : dom (MarkerCache w) ⊆ dom (MarkerCache (run ops w)).
Proof.
  revert w. induction ops as [|o ops IH]; intros w; simpl; [done|].
  etrans; [apply (step_dom w o)|apply IH].
Qed.

Lemma step_cache w o : is_Loaded o = false → MarkerCache w ⊆ MarkerCache (step w o).
Proof.
  destruct o as [r i|a|n natural]; simpl; intros Ho; [done| |done].
  apply CreateMarker_cache.
Qed.

Lemma run_cache ops w :
  forallb (λ o, negb (is_Loaded o)) ops = true → MarkerCache w ⊆ MarkerCache (run ops w).
Proof.
  revert w. induction ops as [|o ops IH]; intros w; simpl; [done|].
  intros [Ho Hops]%andb_prop. etrans; [apply (step_cache w o)|apply IH; done].
  by destruct (is_Loaded o).
Qed.

(** Creating a circle marker with id [k] leaves [k] cached. *)
Lemma circle_cached k w :
  document w = true →
  let w' := run [Store 0 (Examples.circle k); Create (Some 0)] w in
  k ∈ dom (MarkerCache w') ∧ document w' = true.
Proof.
  intros Hdoc w'. split.
  - subst w'. unfold run. simpl. unfold CreateMarker, deref. simpl.
    rewrite lookup_insert_eq. simpl. unfold CreateDynmaicCircleMarker, deref. simpl.
    rewrite Hdoc, lookup_insert_eq. simpl. unfold cached. simpl.
    destruct (MarkerCache w !! k) as [e|] eqn:He; simpl.
    + apply elem_of_dom. eauto.
    + rewrite dom_insert_L. set_solver.
  - subst w'. unfold run. simpl. by rewrite CreateMarker_document.
Qed.

Lemma fill_S n :
  Examples.fill (S n)
  = Examples.fill n ++ [Store 0 (Examples.circle (pretty n)); Create (Some 0)].
Proof. unfold Examples.fill. rewrite seq_S, flat_map_app. simpl. done. Qed.

Lemma fill_cached n w :
  document w = true →
  document (run (Examples.fill n) w) = true
  ∧ ∀ j, j < n → pretty j ∈ dom (MarkerCache (run (Examples.fill n) w)).
Proof.
  intros Hdoc. induction n as [|n [IHd IH]].
  - split; [done|]. intros j Hj. lia.
  - rewrite fill_S, run_app.
    destruct (circle_cached (pretty n) (run (Examples.fill n) w) IHd) as [Hin Hd].
    split; [done|]. intros j Hj. destruct (decide (j = n)) as [->|Hne]; [done|].
    eapply run_dom. apply IH. lia.
Qed.

(** [n] markers with [n] ids make a cache of at least [n] entries. *)
Lemma fill_size n w :
  document w = true → n ≤ stdpp.base.size (MarkerCache (run (Examples.fill n) w)).
Proof.
  intros Hdoc. destruct (fill_cached n w Hdoc) as [_ Hin].
  rewrite <- size_dom.
  assert (Hsub : list_to_set (C := gset string) (pretty <$> seq 0 n)
                 ⊆ dom (MarkerCache (run (Examples.fill n) w))).
  { intros k [j [-> Hj]]%elem_of_list_to_set%list_elem_of_fmap.
    apply Hin. apply elem_of_seq in Hj. lia. }
  apply subseteq_size in Hsub. rewrite size_list_to_set in Hsub.
  - by rewrite length_fmap, length_seq in Hsub.
  - apply NoDup_fmap; [apply _|apply NoDup_seq].
Qed.

(** C3, as amended: over any run of [CreateMarker] calls, writes by the
    caller to its own objects and image loads, an id that is cached stays
    cached; over a run in which no image load completes, every entry stays as
    it was; and on a page with a document the cache can be made to hold any
    number of entries: nothing evicts, expires or bounds it. *)
Theorem cache_only_grows ops w :
  dom (MarkerCache w) ⊆ dom (MarkerCache (run ops w))
  ∧ (forallb (λ o, negb (is_Loaded o)) ops = true → MarkerCache w ⊆ MarkerCache (run ops w))
  ∧ (document w = true → ∀ n, ∃ ops', n ≤ stdpp.base.size (MarkerCache (run ops' w))).
Proof.
  split; [apply run_dom|]. split; [apply run_cache|].
  intros Hdoc n. exists (Examples.fill n). by apply fill_size.
Qed.

(** *** Objects without an id *)

Lemma Create_no_id t w r i :
  heap w !! r = Some i → id i = None → MarkerCache (Create_ t (Some r) w).2 = MarkerCache w.
Proof.
  intros Hr Hk. pose proof (deref_Some _ _ _ Hr) as Hd.
  destruct t; unfold_Create; rewrite Hd; unfold cached; rewrite Hk;
    repeat case_match; simplify_eq/=; done.
Qed.

(** Without an id the call does the same whatever the cache holds. *)
Lemma Create_ignores_cache t w r i c :
  heap w !! r = Some i → id i = None →
  Create_ t (Some r) (with_cache c w)
  = ((Create_ t (Some r) w).1, with_cache c (Create_ t (Some r) w).2).
Proof.
  intros Hr Hk.
  destruct t; unfold_Create; unfold deref, cached; simpl; rewrite Hr; simpl;
    rewrite ?Hk; simpl; repeat case_match; simplify_eq/=; done.
Qed.

Lemma alter_set_size r sz i (h : gmap nat IMarkerIconInfo) :
  h !! r = Some i → alter (set_size sz) r h = <[r := set_size sz i]> h.
Proof.
  intros Hr. apply map_eq. intros j. destruct (decide (r = j)) as [->|Hne].
  - by rewrite lookup_alter_eq, lookup_insert_eq, Hr.
  - by rewrite lookup_alter_ne, lookup_insert_ne.
Qed.

Lemma onload_no_id n natural w img i :
  loading w !! n = Some img → heap w !! closure_iconInfo img = Some i → id i = None →
  MarkerCache (onload n natural w) = MarkerCache w.
Proof.
  intros Hn Hr Hk. unfold onload, fire. rewrite Hn. simpl. rewrite Hr.
  unfold rotated_onload, rounded_onload, scaled_onload, deliver, invoke. rewrite Hk.
  repeat case_match; done.
Qed.

Lemma heap_cache_set k s sz w : heap (cache_set k s sz w) = heap w.
Proof. by destruct k. Qed.

Lemma assign_size_id r0 v w r i :
  heap w !! r = Some i → (id <$> heap (assign_size r0 v w) !! r) = Some (id i).
Proof.
  intros Hr. simpl. destruct (decide (r0 = r)) as [->|Hne].
  - by rewrite lookup_alter_eq, Hr.
  - by rewrite lookup_alter_ne, Hr.
Qed.

(** A call leaves the id of every object as it is. *)
Lemma Create_keeps_id t a w r i :
  heap w !! r = Some i → (id <$> heap (Create_ t a w).2 !! r) = Some (id i).
Proof.
  intros Hr.
  destruct t; Create_cases; rewrite ?heap_cache_set; simpl;
    first [ by rewrite Hr | by apply (assign_size_id _ _ w) ].
Qed.

(** C7, as amended: for any of the six [Create*] functions and an [iconInfo]
    object that carries no id, the call leaves the icon cache exactly as it
    was and does the same whatever the cache holds, and the handler of a
    picture that loads for this object afterwards leaves the cache as it was
    too. When the guards pass (a document, the required fields), the image is
    made anew from the fields of the object on every call: the canvas marker
    draws the polygon through its points, the circle marker composes its SVG
    text, the font marker draws its text, and the three image markers start a
    new load of [iconInfo.url]. When a guard fails the call throws an [Error]
    and makes nothing. [CreateMarker] is that function when the marker type
    of the object is its own. *)
Theorem no_id_leaves_cache_unchanged t w r i :
  heap w !! r = Some i → id i = None →
  let out := Create_ t (Some r) w in
  MarkerCache out.2 = MarkerCache w
  ∧ (∀ c, Create_ t (Some r) (with_cache c w) = (out.1, with_cache c out.2))
  ∧ (∀ n natural img, loading out.2 !! n = Some img → closure_iconInfo img = r →
       MarkerCache (onload n natural out.2) = MarkerCache out.2)
  ∧ (markerType i = Member t → CreateMarker (Some r) w = out)
  ∧ (document w = false ∨ required t i = false →
     out.2 = w ∧ ∃ m, out.1 = Throw (Error m))
  ∧ (document w = true → required t i = true →
     let colour :=
       match color i with
       | Some c => if negb (bool_decide (c = "")) then c else "red"
       | None => "red"
       end in
     let turn := λ cw ch : number,
       match rotation i with
       | Some a =>
           if negb (PrimFloat.eqb a 0) && negb (PrimFloat.is_nan a)
           then [ Translate (cw * 0.5) (ch * 0.5);
                  Rotate (a * 3.141592653589793 / 180);
                  Translate (- cw * 0.5) (- ch * 0.5) ]
           else []
       | None => []
       end in
     match t with
     | CanvasMarker =>
         ∀ sz pts, size i = Some sz → points i = Some pts →
         let cmds :=
           [ SetWidth (width sz); SetHeight (height sz) ]
           ++ turn (ToUnsignedLong (width sz)) (ToUnsignedLong (height sz))
           ++ [ FillStyle colour; BeginPath ]
           ++ match drawingOffset i with Some o => [ MoveTo (x o) (y o) ] | None => [] end
           ++ ((λ p, LineTo (x p) (y p)) <$> pts)
           ++ [ ClosePath; Fill; Stroke ] in
         out.1 = Return (toDataURL cmds)
         ∧ trace out.2 = trace w ++ [Drawn cmds]
         ∧ heap out.2 = heap w ∧ loading out.2 = loading w
     | DynmaicCircleMarker =>
         ∀ sz, size i = Some sz →
         let q := String (Ascii.ascii_of_nat 34) "" in
         let stroke :=
           match strokeWidth i with
           | Some n =>
               if negb (PrimFloat.eqb n 0) && negb (PrimFloat.is_nan n) then n else 0%float
           | None => 0%float
           end in
         out.1 = Return
           ("<svg xmlns=" +:+ q +:+ "http://www.w3.org/2000/svg" +:+ q
            +:+ " width=" +:+ q +:+ Number_toString (width sz) +:+ q
            +:+ " height=" +:+ q +:+ Number_toString (width sz) +:+ q
            +:+ "><circle cx=" +:+ q +:+ Number_toString (width sz / 2) +:+ q
            +:+ " cy=" +:+ q +:+ Number_toString (width sz / 2) +:+ q
            +:+ " r=" +:+ q +:+ Number_toString (width sz / 2 - stroke) +:+ q
            +:+ " stroke=" +:+ q +:+ colour +:+ q
            +:+ " stroke-width=" +:+ q +:+ Number_toString stroke +:+ q
            +:+ " fill=" +:+ q +:+ colour +:+ q +:+ "/></svg>")
         ∧ trace out.2 = trace w ∧ heap out.2 = heap w ∧ loading out.2 = loading w
     | FontMarker =>
         ∀ fname fsize, fontName i = Some fname → fontSize i = Some fsize →
         let font := Number_toString fsize +:+ "px " +:+ fname in
         let txt := match text i with Some s => s | None => "undefined" end in
         let cmds :=
           [ Font font; SetWidth (measureText font txt); SetHeight fsize ]
           ++ turn (ToUnsignedLong (measureText font txt)) (ToUnsignedLong fsize)
           ++ [ Font font; TextBaseline "top"; FillStyle colour; FillText txt 0 0 ] in
         out.1 = Return (toDataURL cmds)
         ∧ trace out.2 = trace w ++ [Drawn cmds]
         ∧ heap out.2
           = <[r := set_size {| width := ToUnsignedLong (measureText font txt);
                                height := ToUnsignedLong fsize |} i]> (heap w)
         ∧ loading out.2 = loading w
     | RotatedImageMarker =>
         ∀ u, url i = Some u →
         out.1 = Return ""
         ∧ loading out.2
           = loading w
             ++ [ {| handler := RotatedOnload; closure_iconInfo := r; src := u;
                     width_attr := match size i with
                                   | Some sz => Some (ToUnsignedLong (width sz))
                                   | None => None
                                   end;
                     height_attr := match size i with
                                    | Some sz => Some (ToUnsignedLong (height sz))
                                    | None => None
                                    end |} ]
         ∧ trace out.2 = trace w ∧ heap out.2 = heap w
     | RoundedImageMarker =>
         ∀ u sz, url i = Some u → size i = Some sz →
         out.1 = Return ""
         ∧ loading out.2
           = loading w
             ++ [ {| handler :=
                       RoundedOnload (width sz / 2)
                         match drawingOffset i with
                         | Some o => o
                         | None => {| x := 0; y := 0 |}
                         end;
                     closure_iconInfo := r; src := u;
                     width_attr := None; height_attr := None |} ]
         ∧ trace out.2 = trace w ∧ heap out.2 = heap w
     | ScaledImageMarker =>
         ∀ u, url i = Some u →
         out.1 = Return ""
         ∧ loading out.2
           = loading w
             ++ [ {| handler := ScaledOnload; closure_iconInfo := r; src := u;
                     width_attr := None; height_attr := None |} ]
         ∧ trace out.2 = trace w ∧ heap out.2 = heap w
     end).
Proof.
  intros Hr Hk out. subst out. split_and!.
  - by apply (Create_no_id t w r i).
  - intros c. by apply (Create_ignores_cache t w r i).
  - intros n natural img Hn <-.
    pose proof (Create_keeps_id t (Some (closure_iconInfo img)) w _ _ Hr) as Hid.
    destruct (heap (Create_ t (Some (closure_iconInfo img)) w).2 !! closure_iconInfo img)
      as [i'|] eqn:Hr'; [|done].
    simpl in Hid. eapply onload_no_id; [done..|congruence].
  - intros Ht. apply (CreateMarker_Member _ _ r i t (deref_Some _ _ _ Hr) Ht).
  - intros Hfail.
    destruct (proj2 (Create_throws t (Some r) w)) as [e He].
    { destruct Hfail as [Hdoc|Hreq]; [by left|]. right. right.
      exists r, i. split; [by apply deref_Some|done]. }
    destruct (Create_failure t (Some r) w e He) as [Hw [m ->]]. eauto.
  - intros Hdoc Hreq colour turn. pose proof (deref_Some _ _ _ Hr) as Hd.
    pose proof (cached_no_id w i Hk) as Hc.
    destruct t; required_fields Hreq; unfold_Create; rewrite Hdoc, Hd, Hc; cbn [negb];
      intros; simplify_eq;
      repeat match goal with Hf : _ i = Some _ |- _ => rewrite Hf end;
      rewrite ?Hk; simpl; split_and?; try done.
    by apply alter_set_size.
Qed.

End MarkerFacts.

(** ** The layer wrapper *)
Section LayerFacts.
Import BingLayer.

Lemma AddEntity_forwards (entity : Entity) l p :
  entity !! "NativePrimitve" = Some p → AddEntity entity l = call (add (Some p)) l.
Proof. intros Hp. unfold AddEntity. rewrite Hp. done. Qed.

Lemma AddEntity_without_primitive (entity : Entity) l :
  entity !! "NativePrimitve" = None → AddEntity entity l = l.
Proof. intros Hp. unfold AddEntity. rewrite Hp. done. Qed.

(** [RemoveEntity] tests the property [NativePRimitive]: an entity without
    that property is left alone, whatever its [NativePrimitve] is. *)
Lemma RemoveEntity_misspelt (entity : Entity) l :
  entity !! "NativePRimitive" = None → RemoveEntity entity l = l.
Proof. intros Hp. unfold RemoveEntity. rewrite Hp. done. Qed.

(** C5, where the code departs from the claim: a marker whose native
    primitive is [p]. [AddEntity] forwards [add(p)] to the native layer;
    [RemoveEntity] forwards nothing, so the native layer keeps [p]. *)
Theorem RemoveEntity_forwards_nothing p l :
  AddEntity (Examples.marker_entity p) l = call (add (Some p)) l
  ∧ RemoveEntity (Examples.marker_entity p) l = l.
Proof.
  split.
  - apply AddEntity_forwards. apply lookup_singleton_eq.
  - apply RemoveEntity_misspelt. by apply lookup_singleton_ne.
Qed.

(** [SetOptions] assigns the text of the number to the property [id] of the
    native layer. *)
Lemma SetOptions_assigns_id `{Host} n l :
  _layer (SetOptions {| id := n |} l) = _layer l ++ [set_id (Number_toString n)].
Proof. done. Qed.

(** [GetOptions] reads what [getId()] answers after the assignment. *)
Lemma GetOptions_after_SetOptions `{Host} n l :
  GetOptions (SetOptions {| id := n |} l)
  = {| id := Number_ofString (getId l (_layer l ++ [set_id (Number_toString n)])) |}.
Proof. done. Qed.

(** The id comes back when the native [getId] answers the id assigned last
    and the host reads the text of [n] back as [n]. *)
Lemma GetOptions_after_SetOptions_if `{Host} n l :
  (∀ calls s, getId l (calls ++ [set_id s]) = s) →
  Number_ofString (Number_toString n) = n →
  GetOptions (SetOptions {| id := n |} l) = {| id := n |}.
Proof. intros Hnative Hnumber. rewrite GetOptions_after_SetOptions, Hnative, Hnumber. done. Qed.

End LayerFacts.

(** ** The map service *)
Section ServiceFacts.
Import BingMapService.
Context `{BingConversions}.

Lemma live_snoc calls c : live (calls ++ [c]) = live_step (live calls) c.
Proof. unfold live. by rewrite foldl_app. Qed.

Lemma new_consistent key : consistent (new key).
Proof.
  unfold consistent, new. simpl. split_and!; try done.
  intros m el o Hin. by apply elem_of_nil in Hin.
Qed.

Lemma DisposeMap_consistent s : consistent s → consistent (DisposeMap s).
Proof.
  intros Hs. pose proof Hs as (Hlive & Hfresh & Hmap & Hprom). unfold DisposeMap.
  rewrite Hmap. destruct (_mapInstance s) as [m|] eqn:Hinst; [|exact Hs].
  unfold consistent. simpl. split_and!.
  - rewrite live_snoc, Hlive. simpl. apply difference_diag_L.
  - intros m' el o [Hin|Hin]%elem_of_app.
    + rewrite length_app. simpl. apply Hfresh in Hin. lia.
    + apply list_elem_of_singleton in Hin. done.
  - done.
  - by rewrite lookup_insert_eq.
Qed.

Lemma CreateMap_consistent el o s : consistent s → consistent (CreateMap el o s).
Proof.
  intros Hs. unfold CreateMap.
  assert (consistent (match _mapInstance s with Some _ => DisposeMap s | None => s end)
          ∧ _mapInstance (match _mapInstance s with Some _ => DisposeMap s | None => s end)
            = None)
    as [(Hlive & Hfresh & Hmap & Hprom) Hnone].
  { destruct (_mapInstance s) as [m|] eqn:Hinst; [|done].
    split; [by apply DisposeMap_consistent|].
    unfold DisposeMap. rewrite Hinst. by destruct (_map s). }
  set (s1 := match _mapInstance s with Some _ => DisposeMap s | None => s end) in *.
  unfold consistent. simpl. split_and!.
  - rewrite live_snoc, Hlive, Hnone. simpl. apply (left_id_L ∅ (∪)).
  - intros m' el' o' [Hin|Hin]%elem_of_app.
    + rewrite length_app. simpl. apply Hfresh in Hin. lia.
    + apply list_elem_of_singleton in Hin. simplify_eq. rewrite length_app. simpl. lia.
  - done.
  - unfold resolve. rewrite Hprom, Hnone. by rewrite lookup_insert_eq.
Qed.

Lemma run_consistent ops s : consistent s → consistent (run ops s).
Proof.
  revert s. induction ops as [|o ops IH]; intros s Hs; simpl; [done|].
  apply IH. destruct o; simpl; [by apply CreateMap_consistent|by apply DisposeMap_consistent].
Qed.

Lemma DisposeMap_idempotent s : DisposeMap (DisposeMap s) = DisposeMap s.
Proof. destruct s as [mp inst res key ps calls]. by destruct mp, inst. Qed.

(** C9: in every state the service reaches from its constructor through
    [CreateMap] and [DisposeMap], the maps that exist are the stored instance
    and nothing else, so at most one. [CreateMap] disposes of the stored
    instance, if any, before it creates the new map, which is then the stored
    instance, the only map, and the value of the map promise. [DisposeMap]
    with a stored instance disposes of it, stores null and puts a new,
    pending promise in [_map]; with no stored instance it changes nothing;
    and a second [DisposeMap] changes nothing. *)
Theorem one_live_map key ops :
  let s := run ops (new key) in
  live (native s) = from_option singleton ∅ (_mapInstance s)
  ∧ stdpp.base.size (live (native s)) ≤ 1
  ∧ (∀ el o,
       let s' := CreateMap el o s in
       ∃ m, _mapInstance s' = Some m ∧ live (native s') = {[ m ]}
         ∧ native s' = native s ++ from_option (λ m0, [Dispose m0]) [] (_mapInstance s)
                         ++ [NewMap m el (default_credentials (apiKey s) (TranslateLoadOptions o))]
         ∧ ∃ p, _map s' = Some p ∧ promises s' !! p = Some (Some m))
  ∧ (∀ m, _mapInstance s = Some m →
       let s' := DisposeMap s in
       native s' = native s ++ [Dispose m] ∧ _mapInstance s' = None
       ∧ ∃ p, _map s' = Some p ∧ _mapResolver s' = p
           ∧ promises s !! p = None ∧ promises s' !! p = Some None)
  ∧ (_mapInstance s = None → DisposeMap s = s)
  ∧ DisposeMap (DisposeMap s) = DisposeMap s.
Proof.
  intros s. assert (consistent s) as Hs by apply run_consistent, new_consistent.
  split_and!.
  - apply Hs.
  - destruct Hs as (-> & _). destruct (_mapInstance s); unfold from_option.
    + rewrite size_singleton. lia.
    + rewrite size_empty. lia.
  - intros el o s'.
    pose proof (CreateMap_consistent el o s Hs) as (Hlive' & _ & Hmap' & Hprom').
    subst s'. revert Hlive' Hmap' Hprom'. unfold CreateMap at 1 2 3 4 5 6. simpl.
    intros Hlive' Hmap' Hprom'.
    eexists. split; [done|]. split; [done|]. split.
    + unfold CreateMap, DisposeMap. destruct Hs as (_ & _ & -> & _).
      destruct (_mapInstance s); simpl; [by rewrite <- app_assoc|done].
    + eexists. split; [exact Hmap'|]. exact Hprom'.
  - intros m Hm s'. subst s'. unfold DisposeMap. destruct Hs as (_ & _ & -> & _).
    rewrite Hm. simpl. split_and!; try done.
    eexists. split_and!; try done.
    + apply not_elem_of_dom, is_fresh.
    + by rewrite lookup_insert_eq.
  - intros Hm. unfold DisposeMap. rewrite Hm. by destruct (_map s).
  - apply DisposeMap_idempotent.
Qed.

(** C10, as amended: on a page with a document, for marker options whose
    translation has no icon, [CreateMarker] stores the default [iconInfo] (a
    canvas marker of size 48 by 48, colour [#f00], rotation 45, drawing
    offset (24, 0), four points, no id) as a new object and has
    [Marker.CreateMarker] draw it: a canvas 48 by 48, turned by 45 degrees
    about its centre, filled with [#f00] along the path from (24, 0) through
    (10, 40), (24, 30), (38, 40) and back to (24, 0). It pushes a pushpin
    whose icon is that picture, whose anchor is (48 * 0.75, 48 * 0.25) and
    whose text offset is (0, 48 * 0.66). The icon cache is as before, and the
    canvas is drawn on every such call. *)
Theorem CreateMarker_default_icon `{Host} options w entities :
  icon (TranslateMarkerOptions options) = None → Marker.document w = true →
  let r := fresh (dom (Marker.heap w)) in
  let cmds :=
    [ SetWidth 48; SetHeight 48;
      Translate (ToUnsignedLong 48 * 0.5) (ToUnsignedLong 48 * 0.5);
      Rotate (45 * 3.141592653589793 / 180);
      Translate (- ToUnsignedLong 48 * 0.5) (- ToUnsignedLong 48 * 0.5);
      FillStyle "#f00"; BeginPath; MoveTo 24 0;
      LineTo 10 40; LineTo 24 30; LineTo 38 40; LineTo 24 0;
      ClosePath; Fill; Stroke ] in
  let pushpin :=
    {| pushpin_location := TranslateLocation_position options;
       pushpin_options :=
         {| icon := Some (toDataURL cmds);
            anchor := Some {| px := 48 * 0.75; py := 48 * 0.25 |};
            textOffset := Some {| px := 0; py := 48 * 0.66 |};
            pushpin_rest := pushpin_rest (TranslateMarkerOptions options) |} |} in
  let out := CreateMarker options w entities in
  out.1.1 = Return pushpin
  ∧ out.2 = entities ++ [pushpin]
  ∧ Marker.MarkerCache out.1.2 = Marker.MarkerCache w
  ∧ Marker.trace out.1.2 = Marker.trace w ++ [Marker.Drawn cmds]
  ∧ Marker.loading out.1.2 = Marker.loading w
  ∧ Marker.document out.1.2 = true
  ∧ Marker.heap out.1.2
    = <[ r := {| Marker.id := None;
                 Marker.markerType := Marker.Member Marker.CanvasMarker;
                 Marker.size := Some {| width := 48; height := 48 |};
                 Marker.points := Some [ {| x := 10; y := 40 |}; {| x := 24; y := 30 |};
                                         {| x := 38; y := 40 |}; {| x := 24; y := 0 |} ];
                 Marker.color := Some "#f00";
                 Marker.rotation := Some 45%float;
                 Marker.drawingOffset := Some {| x := 24; y := 0 |};
                 Marker.strokeWidth := None; Marker.fontName := None;
                 Marker.fontSize := None; Marker.text := None; Marker.url := None;
                 Marker.scale := None; Marker.callback := None |} ]> (Marker.heap w).
Proof.
  intros Hicon Hdoc r cmds pushpin out. subst out.
  unfold CreateMarker. rewrite Hicon. fold r.
  unfold Marker.CreateMarker, Marker.deref. simpl. rewrite lookup_insert_eq. simpl.
  unfold Marker.CreateCanvasMarker, Marker.deref. simpl. rewrite Hdoc, lookup_insert_eq. simpl.
  rewrite lookup_insert_eq. simpl. done.
Qed.

End ServiceFacts.

(** The anchor and the text offset of the default icon, as numbers. *)
Lemma default_anchor :
  (48 * 0.75 = 36 ∧ 48 * 0.25 = 12 ∧ 48 * 0.66 = 31.68)%float.
Proof. vm_compute. done. Qed.

(** ** The statements at concrete inputs *)
Section AtExamples.
Import Marker Examples.

Lemma cache_hit_returns_cached_image_witness :
  (@CreateCanvasMarker example_host (Some 0) cached_world).1 = Return "img".
Proof.
  refine (proj1 (@cache_hit_returns_cached_image example_host CanvasMarker cached_world 0
    object_0 "a" entry_a _ _ _ _ _)); vm_compute; reflexivity.
Defined.

(** C1 as the spec states it fails twice on a page where the id [a] is
    cached with the image [img]: the rotated image marker at 1 returns the
    empty string, and the canvas marker at 2, which lacks its points, throws. *)
Lemma cache_hit_counterexample :
  (id <$> heap cached_world !! 1) = Some (Some "a")
  ∧ MarkerCache cached_world !! "a" = Some entry_a
  ∧ markerIconString entry_a = "img"
  ∧ (@CreateMarker example_host (Some 1) cached_world).1 = Return ""
  ∧ (id <$> heap cached_world !! 2) = Some (Some "a")
  ∧ (@CreateMarker example_host (Some 2) cached_world).1
    = Throw (Error "IMarkerIconInfo.size, and IMarkerIConInfo.points are required for canvas markers.").
Proof. vm_compute. done. Qed.

Lemma cache_hit_adopts_cached_size_witness :
  heap (@CreateCanvasMarker example_host (Some 0) cached_world).2 !! 0
  = Some (set_size (square 10) object_0).
Proof.
  pose proof (@cache_hit_adopts_cached_size example_host CanvasMarker cached_world 0
    object_0 "a" entry_a eq_refl eq_refl eq_refl eq_refl eq_refl) as [Hheap _].
  cbv zeta in Hheap. simpl Create_ in Hheap. rewrite Hheap. apply lookup_insert_eq.
Defined.

Lemma square_5_not_10 : square 5 ≠ square 10.
Proof.
  intros Heq. apply (f_equal (λ s, PrimFloat.eqb (width s) 5)) in Heq.
  vm_compute in Heq. discriminate.
Qed.

Lemma square_20_not_60 : square 20 ≠ square 60.
Proof.
  intros Heq. apply (f_equal (λ s, PrimFloat.eqb (width s) 20)) in Heq.
  vm_compute in Heq. discriminate.
Qed.

(** C2 as the spec states it fails on the canvas marker at 2, whose id [a] is
    cached with size 10 by 10 and which lacks its points: the call throws and
    changes nothing, so [iconInfo.size] is still 5 by 5. *)
Lemma adopts_cached_size_counterexample :
  (id <$> heap cached_world !! 2) = Some (Some "a")
  ∧ MarkerCache cached_world !! "a" = Some entry_a
  ∧ @CreateMarker example_host (Some 2) cached_world
    = (Throw (Error "IMarkerIconInfo.size, and IMarkerIConInfo.points are required for canvas markers."),
       cached_world)
  ∧ (size <$> heap cached_world !! 2) = Some (Some (square 5))
  ∧ square 5 ≠ markerSize entry_a.
Proof. split_and!; try (vm_compute; reflexivity). apply square_5_not_10. Qed.

(** C3 as the spec states it fails on [race]: two scaled image markers with
    the id [a] are requested before either picture arrives. The first
    picture caches an entry of size 20 by 20; when the second picture, 30 by
    30, arrives, its handler puts an entry of size 60 by 60 in its place. *)
Lemma replaced_entry_counterexample :
  MarkerCache (@run example_host race empty_world) !! "a"
  = Some {| markerIconString := "data:image/png;base64,3"; markerSize := square 20 |}
  ∧ MarkerCache (@run example_host (race ++ [Loaded 0 (square 30)]) empty_world) !! "a"
    = Some {| markerIconString := "data:image/png;base64,3"; markerSize := square 60 |}
  ∧ square 20 ≠ square 60.
Proof. split_and!; try (vm_compute; reflexivity). apply square_20_not_60. Qed.

Lemma no_id_leaves_cache_unchanged_witness :
  MarkerCache (@CreateDynmaicCircleMarker example_host (Some 0) idless_world).2 = ∅.
Proof.
  apply (@no_id_leaves_cache_unchanged example_host DynmaicCircleMarker idless_world 0
    idless_circle); reflexivity.
Defined.

(** C7 as the spec states it fails on a canvas marker that carries no id and
    lacks its points: the call throws, so no image is made, and nothing is
    drawn. *)
Lemma not_regenerated_counterexample :
  id idless_pointless = None
  ∧ @CreateCanvasMarker example_host (Some 0) (page_with idless_pointless)
    = (Throw (Error "IMarkerIconInfo.size, and IMarkerIConInfo.points are required for canvas markers."),
       page_with idless_pointless)
  ∧ @CreateMarker example_host (Some 0) (page_with idless_pointless)
    = @CreateCanvasMarker example_host (Some 0) (page_with idless_pointless)
  ∧ trace (page_with idless_pointless) = [].
Proof. vm_compute. done. Qed.

Lemma CreateMarker_dispatch_witness :
  @CreateMarker example_host (Some 0) cached_world
  = @CreateCanvasMarker example_host (Some 0) cached_world.
Proof.
  exact (proj1 (@CreateMarker_dispatch example_host cached_world (Some 0) 0 object_0 eq_refl)
    eq_refl).
Defined.

Lemma CreateMarker_default_icon_witness :
  Marker.MarkerCache
    (@BingMapService.CreateMarker example_conversions example_host None empty_world []).1.2
  = ∅.
Proof.
  apply (@CreateMarker_default_icon example_conversions example_host None empty_world []);
    reflexivity.
Defined.

(** C10 as the spec states it fails on a page without a document: the
    translated options have no icon, [Marker.CreateMarker] throws, and no
    pushpin is made. *)
Lemma default_icon_counterexample :
  BingMapService.icon (@BingMapService.TranslateMarkerOptions example_conversions None) = None
  ∧ (@BingMapService.CreateMarker example_conversions example_host None
       page_without_document []).1.1
    = Throw (Error "Document context (window.document) is required for canvas markers.")
  ∧ (@BingMapService.CreateMarker example_conversions example_host None
       page_without_document []).2
    = []
  ∧ trace (@BingMapService.CreateMarker example_conversions example_host None
             page_without_document []).1.2
    = [].
Proof. vm_compute. done. Qed.

(** A service that creates two maps and disposes of the second has made
    four native calls and holds no map. *)
Example two_maps :
  let s := @BingMapService.run example_conversions
             [ @BingMapService.DoCreateMap example_conversions 1 None;
               @BingMapService.DoCreateMap example_conversions 1 (Some "key");
               @BingMapService.DoDisposeMap example_conversions ]
             (BingMapService.new "k") in
  BingMapService.native s
  = [ BingMapService.NewMap 0 1
        {| BingMapService.credentials := Some "k"; BingMapService.load_rest := [] |};
      BingMapService.Dispose 0;
      BingMapService.NewMap 2 1
        {| BingMapService.credentials := Some "key"; BingMapService.load_rest := [] |};
      BingMapService.Dispose 2 ]
  ∧ BingMapService._mapInstance s = None.
Proof. vm_compute. done. Qed.

End AtExamples.

(** * Further properties *)

Section MarkerFailure.
Import Marker MarkerEvents.
Context `{Host}.

(** *** Failure *)



(** *** Misses *)

Lemma set_size_same sz i : size i = Some sz → set_size sz i = i.
Proof. destruct i. simpl. by intros ->. Qed.

Lemma required_set_size t sz i : required t i = true → required t (set_size sz i) = true.
Proof.
  destruct t; simpl; try done; intros Hreq;
    repeat (apply andb_prop in Hreq as [Hreq ?]);
    repeat (apply andb_true_intro; split); try done; by apply bool_decide_eq_true_2.
Qed.

(** A miss of one of the three functions that return their image. *)
Lemma Create_miss_returns t w r i k :
  by_callback t = false → document w = true → heap w !! r = Some i →
  required t i = true → id i = Some k → MarkerCache w !! k = None →
  ∃ s sz w',
    Create_ t (Some r) w = (Return s, w')
    ∧ MarkerCache w' = <[k := {| markerIconString := s; markerSize := sz |}]> (MarkerCache w)
    ∧ heap w' = <[r := set_size sz i]> (heap w)
    ∧ document w' = true ∧ loading w' = loading w
    ∧ filter is_Called (trace w') = filter is_Called (trace w).
Proof.
  intros Ht Hdoc Hr Hreq Hk Hmiss. pose proof (deref_Some _ _ _ Hr) as Hd.
  assert (cached w i = None) as Hc by (unfold cached; rewrite Hk; done).
  destruct t; try done; required_fields Hreq; unfold_Create;
    rewrite Hdoc, Hd, Hc; cbn [negb];
    repeat match goal with Hf : _ i = Some _ |- _ => rewrite Hf end;
    rewrite ?Hk; simpl; eexists _, _, _; (split; [reflexivity|]); simpl;
    rewrite ?filter_app, ?app_nil_r; split_and!; try done.
  - rewrite set_size_same by done. by rewrite insert_id.
  - rewrite set_size_same by done. by rewrite insert_id.
  - by apply alter_set_size.
Qed.

End MarkerFailure.

Section MarkerMemo.
Import Marker MarkerEvents.
Context `{Host}.

Lemma hit_quiet t r i e w :
  MarkerCache (hit t r i e w).2 = MarkerCache w
  ∧ loading (hit t r i e w).2 = loading w
  ∧ filter is_Drawn (trace (hit t r i e w).2) = filter is_Drawn (trace w).
Proof.
  unfold hit, invoke. destruct (by_callback t); [destruct (callback i)|]; simpl;
    rewrite ?filter_app, ?app_nil_r; done.
Qed.

Lemma step_document w o : document (step w o) = document w.
Proof.
  destruct o as [r i|a|n natural]; simpl; [done|apply CreateMarker_document|].
  unfold onload, fire, rotated_onload, rounded_onload, scaled_onload, deliver, invoke, cache_set.
  repeat case_match; done.
Qed.

Lemma run_document ops w : document (run ops w) = document w.
Proof.
  revert w. induction ops as [|o ops IH]; intros w; simpl; [done|].
  fold (run ops (step w o)). by rewrite IH, step_document.
Qed.

(** An entry is still served after a run in which no image load completes. *)
Lemma served_after_run w k e ops t2 r2 i2 :
  document w = true → MarkerCache w !! k = Some e →
  forallb (λ o, negb (is_Loaded o)) ops = true →
  heap (run ops w) !! r2 = Some i2 → required t2 i2 = true → id i2 = Some k →
  let later := run ops w in
  let out2 := Create_ t2 (Some r2) later in
  image_of t2 later out2 = Some (markerIconString e)
  ∧ MarkerCache out2.2 = MarkerCache later
  ∧ loading out2.2 = loading later
  ∧ filter is_Drawn (trace out2.2) = filter is_Drawn (trace later).
Proof.
  intros Hdoc He Hops Hr2 Hreq2 Hk2 later out2. subst out2 later.
  assert (MarkerCache (run ops w) !! k = Some e) as He'.
  { eapply lookup_weaken; [exact He|]. by apply run_cache. }
  rewrite (Create_hit t2 _ r2 i2 k e); [|by rewrite run_document|done..].
  split; [by apply hit_image|]. apply hit_quiet.
Qed.

(** X3: when one of the three functions that return their image
    ([CreateCanvasMarker], [CreateDynmaicCircleMarker],
    [CreateFontBasedMarker]) is called with an id that is not cached and its
    guards pass, it returns an image; and after any further calls of
    [CreateMarker] and writes of the caller to its objects, as long as no
    image load completes, every request with that id that passes its guards,
    through any of the six functions and from any object, is handed that same
    image: the cache stays as it is, no canvas is drawn and no image starts
    to load. *)
Theorem returned_image_is_memoized t w r i k ops :
  by_callback t = false → document w = true → heap w !! r = Some i →
  required t i = true → id i = Some k → MarkerCache w !! k = None →
  forallb (λ o, negb (is_Loaded o)) ops = true →
  let out1 := Create_ t (Some r) w in
  let later := run ops out1.2 in
  ∃ s, out1.1 = Return s
    ∧ ∀ t2 r2 i2,
        heap later !! r2 = Some i2 → required t2 i2 = true → id i2 = Some k →
        let out2 := Create_ t2 (Some r2) later in
        image_of t2 later out2 = Some s
        ∧ MarkerCache out2.2 = MarkerCache later
        ∧ loading out2.2 = loading later
        ∧ filter is_Drawn (trace out2.2) = filter is_Drawn (trace later).
Proof.
  intros Ht Hdoc Hr Hreq Hk Hmiss Hops out1 later.
  destruct (Create_miss_returns t w r i k Ht Hdoc Hr Hreq Hk Hmiss)
    as (s & sz & w' & Hrun & Hcache & Hheap & Hdoc' & _).
  subst later out1. rewrite Hrun. simpl. exists s. split; [done|].
  intros t2 r2 i2 Hr2 Hreq2 Hk2.
  apply (served_after_run w' k {| markerIconString := s; markerSize := sz |} ops t2 r2 i2);
    try done.
  by rewrite Hcache, lookup_insert_eq.
Qed.

(** X5: after a call whose guards pass, for an object with an id:
    whenever that id is cached, [iconInfo.size] is the cached [markerSize];
    and after one of the three functions that return their image the id is
    cached and the string returned is the cached [markerIconString]. *)
Theorem size_agrees_with_cache t w r i k :
  document w = true → heap w !! r = Some i → required t i = true → id i = Some k →
  let out := Create_ t (Some r) w in
  (∀ e, MarkerCache out.2 !! k = Some e →
     heap out.2 !! r = Some (set_size (markerSize e) i))
  ∧ (by_callback t = false →
     ∃ e, MarkerCache out.2 !! k = Some e ∧ out.1 = Return (markerIconString e)).
Proof.
  intros Hdoc Hr Hreq Hk out. subst out.
  destruct (MarkerCache w !! k) as [e0|] eqn:Hc.
  - rewrite (Create_hit t w r i k e0 Hdoc Hr Hreq Hk Hc).
    destruct (hit_quiet t r i e0 w) as (Hcache & _). split.
    + intros e. rewrite Hcache, Hc. intros [= <-].
      by rewrite (hit_heap t w r i e0 Hr), lookup_insert_eq.
    + intros Ht. exists e0. rewrite Hcache. split; [done|]. unfold hit. by rewrite Ht.
  - destruct (by_callback t) eqn:Ht.
    + split; [|done]. intros e He. exfalso.
      assert (MarkerCache (Create_ t (Some r) w).2 = MarkerCache w) as Hsame.
      { pose proof (deref_Some _ _ _ Hr) as Hd.
        assert (cached w i = None) as Hmiss by (unfold cached; rewrite Hk; done).
        destruct t; try done; required_fields Hreq; unfold_Create;
          rewrite Hdoc, Hd, Hmiss; cbn [negb];
          repeat match goal with Hf : _ i = Some _ |- _ => rewrite Hf end; done. }
      rewrite Hsame, Hc in He. done.
    + destruct (Create_miss_returns t w r i k Ht Hdoc Hr Hreq Hk Hc)
        as (s & sz & w' & Hrun & Hcache & Hheap & _).
      rewrite Hrun. simpl. rewrite Hcache, Hheap, lookup_insert_eq. split.
      * intros e [= <-]. by rewrite lookup_insert_eq.
      * intros _. eexists. split; done.
Qed.

Lemma cache_set_other k s sz w k' :
  k ≠ Some k' → MarkerCache (cache_set k s sz w) !! k' = MarkerCache w !! k'.
Proof.
  intros Hne. destruct k as [k|]; simpl; [|done].
  apply lookup_insert_ne. congruence.
Qed.

Lemma Create_other_ids t w r i k' :
  heap w !! r = Some i → id i ≠ Some k' →
  MarkerCache (Create_ t (Some r) w).2 !! k' = MarkerCache w !! k'.
Proof.
  intros Hr Hne. pose proof (deref_Some _ _ _ Hr) as Hd.
  destruct t; unfold_Create; rewrite Hd; repeat case_match; simplify_eq/=;
    try done; by rewrite cache_set_other.
Qed.

Lemma onload_other_ids n natural w img i k' :
  loading w !! n = Some img → heap w !! closure_iconInfo img = Some i → id i ≠ Some k' →
  MarkerCache (onload n natural w) !! k' = MarkerCache w !! k'.
Proof.
  intros Hn Hr Hne. unfold onload, fire. rewrite Hn. simpl. rewrite Hr.
  unfold rotated_onload, rounded_onload, scaled_onload, deliver, invoke.
  repeat case_match; try done; simpl; by rewrite cache_set_other.
Qed.

(** X4: a call for an object, and the handler of an image that loads for
    it, leave the cache entry of every id other than the object's as it was. *)
Theorem other_ids_are_untouched t w r i k' :
  heap w !! r = Some i → id i ≠ Some k' →
  MarkerCache (Create_ t (Some r) w).2 !! k' = MarkerCache w !! k'
  ∧ ∀ n natural img,
      loading w !! n = Some img → closure_iconInfo img = r →
      MarkerCache (onload n natural w) !! k' = MarkerCache w !! k'.
Proof.
  intros Hr Hne. split; [by apply (Create_other_ids t w r i)|].
  intros n natural img Hn <-. by eapply onload_other_ids.
Qed.

(** X7: the three functions that answer through the callback never draw a
    canvas and never write the cache during the call, and start at most one
    image load; the three functions that return their image never start an
    image load and never invoke a callback. *)
Theorem returning_and_callback_functions_keep_apart t a w :
  let out := Create_ t a w in
  if by_callback t
  then MarkerCache out.2 = MarkerCache w
       ∧ filter is_Drawn (trace out.2) = filter is_Drawn (trace w)
       ∧ (loading out.2 = loading w ∨ ∃ img, loading out.2 = loading w ++ [img])
  else loading out.2 = loading w
       ∧ filter is_Called (trace out.2) = filter is_Called (trace w).
Proof.
  intros out. subst out.
  destruct t; cbn [by_callback]; Create_cases;
    rewrite ?filter_app, ?app_nil_r; split_and?; eauto;
    unfold cache_set; case_match; simpl; rewrite ?filter_app, ?app_nil_r; done.
Qed.

End MarkerMemo.

Section MarkerHandlers.
Import Marker MarkerEvents.
Context `{Host}.

(** *** Handlers *)

Lemma deliver_outcome r i cmds sz cb w :
  heap w !! r = Some i → callback i = Some cb →
  let w' := deliver r i cmds sz w in
  trace w' = trace w ++ [Drawn cmds; Called cb (toDataURL cmds) r]
  ∧ heap w' = <[r := set_size sz i]> (heap w)
  ∧ (size <$> heap w' !! r) = Some (Some sz)
  ∧ MarkerCache w'
    = match id i with
      | Some k => <[k := {| markerIconString := toDataURL cmds; markerSize := sz |}]> (MarkerCache w)
      | None => MarkerCache w
      end
  ∧ loading w' = loading w
  ∧ document w' = document w.
Proof.
  intros Hr Hcb w'. subst w'. unfold deliver, invoke. rewrite Hcb.
  destruct (id i) as [k|]; simpl; rewrite <- ?app_assoc; simpl;
    split_and!; try done; try (by apply alter_set_size);
    by rewrite lookup_alter_eq, Hr.
Qed.

(** X6: on a page with a document, when the image of a pending request
    arrives and the object still has its callback (and, for a rounded image
    marker, its size), the handler draws one canvas, then invokes the
    callback once with the picture of that canvas. The rotated handler sizes
    the canvas to the bounding box of the turned image and draws the image
    turned about the centre; the rounded handler makes a square canvas of
    the width of [iconInfo.size], clips it to a circle and draws the image
    scaled into it; the scaled handler draws the image scaled by
    [iconInfo.scale]. The handler writes the size of the canvas to
    [iconInfo.size], and for an object with an id it puts the picture and
    that size in the cache under the id, whatever the cache held there
    before. The image is no longer pending. *)
Theorem handler_delivers_and_overwrites n natural w img i cb :
  document w = true → loading w !! n = Some img →
  heap w !! closure_iconInfo img = Some i → callback i = Some cb →
  let r := closure_iconInfo img in
  let w' := onload n natural w in
  let iw := match width_attr img with Some v => v | None => width natural end in
  let ih := match height_attr img with Some v => v | None => height natural end in
  let delivered := λ (cmds : list CanvasCmd) (sz : ISize),
    trace w' = trace w ++ [Drawn cmds; Called cb (toDataURL cmds) r]
    ∧ heap w' = <[r := set_size sz i]> (heap w)
    ∧ (size <$> heap w' !! r) = Some (Some sz)
    ∧ MarkerCache w'
      = match id i with
        | Some k => <[k := {| markerIconString := toDataURL cmds; markerSize := sz |}]>
                      (MarkerCache w)
        | None => MarkerCache w
        end
    ∧ loading w' = delete n (loading w)
    ∧ document w' = true in
  match handler img with
  | RotatedOnload =>
      let rads := (match rotation i with Some a => a | None => PrimFloat.nan end
                   * 3.141592653589793 / 180)%float in
      let cw := PrimFloat.abs (Math_ceil (iw * Math_cos rads + ih * Math_sin rads)%float) in
      let ch := PrimFloat.abs (Math_ceil (iw * Math_sin rads + ih * Math_cos rads)%float) in
      delivered
        [ SetWidth cw; SetHeight ch;
          Translate (ToUnsignedLong cw / 2) (ToUnsignedLong ch / 2);
          Rotate rads;
          DrawImage (src img) iw ih (- iw / 2) (- ih / 2) ]%float
        {| width := ToUnsignedLong cw; height := ToUnsignedLong ch |}
  | RoundedOnload radius offset =>
      ∀ s0, size i = Some s0 →
      delivered
        [ SetWidth (width s0); SetHeight (width s0);
          BeginPath; Arc radius radius radius 0 (2 * 3.141592653589793) false; Fill; Clip;
          DrawImageScaled (src img) iw ih (x offset) (y offset) (width s0) (width s0) ]%float
        {| width := ToUnsignedLong (width s0); height := ToUnsignedLong (width s0) |}
  | ScaledOnload =>
      let factor := match scale i with Some v => v | None => PrimFloat.nan end in
      let cw := (iw * factor)%float in
      let ch := (ih * factor)%float in
      delivered
        [ SetWidth cw; SetHeight ch;
          DrawImageScaled (src img) iw ih 0 0 (ToUnsignedLong cw) (ToUnsignedLong ch) ]%float
        {| width := ToUnsignedLong cw; height := ToUnsignedLong ch |}
  end.
Proof.
  intros Hdoc Hn Hr Hcb r w' iw ih delivered. subst delivered w' r iw ih.
  unfold onload, fire. rewrite Hn. simpl. rewrite Hdoc, Hr. simpl.
  destruct (handler img) as [|radius offset|] eqn:Hh;
    [unfold rotated_onload|intros s0 Hs0; unfold rounded_onload; rewrite Hs0|unfold scaled_onload];
    match goal with
    | |- context [deliver ?r ?i0 ?c ?s ?w0] =>
        destruct (deliver_outcome r i0 c s cb w0 Hr Hcb) as (Ht & Hh' & Hs & Hc & Hl & Hd)
    end;
    split_and!; first [exact Ht|exact Hh'|exact Hs|exact Hc|exact Hl|by rewrite Hd].
Qed.

Lemma list_delete_ge {A} (l : list A) n : length l ≤ n → delete n l = l.
Proof.
  revert n. induction l as [|a l IH]; intros n Hn; [done|].
  destruct n as [|n]; simpl in *; [lia|]. f_equal. apply IH. lia.
Qed.

Lemma fire_loading img natural w : loading (fire img natural w) = loading w.
Proof.
  unfold fire, rotated_onload, rounded_onload, scaled_onload, deliver, invoke, cache_set.
  repeat case_match; done.
Qed.

(** X8: a load event removes its image from the pending ones and starts no
    other load; for a position at which nothing is pending it changes
    nothing at all; and without a document, or for a rounded image marker
    whose object has lost its size, the handler fails before it draws, so
    removing the image is all that happens. *)
Theorem load_event_consumes_its_image n natural w :
  loading (onload n natural w) = delete n (loading w)
  ∧ (length (loading w) ≤ n → onload n natural w = w)
  ∧ (document w = false → onload n natural w = with_loading (delete n (loading w)) w)
  ∧ (∀ img i radius offset,
       loading w !! n = Some img → heap w !! closure_iconInfo img = Some i →
       handler img = RoundedOnload radius offset → size i = None →
       onload n natural w = with_loading (delete n (loading w)) w).
Proof.
  split_and!.
  - unfold onload. destruct (loading w !! n) as [img|] eqn:Hn.
    + by rewrite fire_loading.
    + symmetry. apply list_delete_ge. by apply lookup_ge_None.
  - intros Hn. unfold onload. by rewrite (proj2 (lookup_ge_None _ _) Hn).
  - intros Hdoc. unfold onload, fire. destruct (loading w !! n) as [img|] eqn:Hn.
    + simpl. by rewrite Hdoc.
    + rewrite list_delete_ge by (by apply lookup_ge_None). by destruct w.
  - intros img i radius offset Hn Hr Hh Hsz. unfold onload, fire. rewrite Hn. simpl.
    rewrite Hr, Hh. unfold rounded_onload. rewrite Hsz. by destruct (document w).
Qed.



End MarkerHandlers.

Section LayerMore.
Import BingLayer BingLayerEntities.

(** X10: the primitives [SetEntities] hands to the native layer are the
    ones [AddEntity] forwards when the entities are added one by one, in the
    same order: the native primitives of the entities that have one, and no
    more of them than there are entities. *)
Theorem SetEntities_like_AddEntity (entities : list Entity) l :
  _layer (foldl (λ l e, AddEntity e l) l entities)
  = _layer l ++ ((λ p, add (Some p)) <$> SetEntities entities)
  ∧ length (SetEntities entities) ≤ length entities
  ∧ ∀ p, p ∈ SetEntities entities ↔ ∃ e, e ∈ entities ∧ e !! "NativePrimitve" = Some p.
Proof.
  split_and!.
  - revert l. induction entities as [|e entities IH]; intros l; simpl.
    + by rewrite app_nil_r.
    + rewrite IH. unfold AddEntity. destruct (e !! "NativePrimitve") as [p|] eqn:Hp; simpl.
      * by rewrite <- app_assoc.
      * done.
  - unfold SetEntities. induction entities as [|e entities IH]; [done|].
    cbn. destruct (e !! "NativePrimitve"); cbn in *; lia.
  - intros p. unfold SetEntities. apply list_elem_of_omap.
Qed.

End LayerMore.

Section ServiceProtocol.
Import BingMapService BingMapProtocol.
Context `{BingConversions}.

(** X11: in every state the service reaches from its constructor, [_map]
    holds the promise that [_mapResolver] settles, and that promise is
    fulfilled with the stored instance when there is one and pending when
    there is none. *)
Theorem map_promise_follows_instance key ops :
  let s := run ops (new key) in
  _map s = Some (_mapResolver s) ∧ promises s !! _mapResolver s = Some (_mapInstance s).
Proof.
  intros s. assert (consistent s) as (_ & _ & Hmap & Hprom) by apply run_consistent, new_consistent.
  done.
Qed.

Lemma phase_snoc calls c : phase (calls ++ [c]) = phase_step (phase calls) c.
Proof. unfold phase. by rewrite foldl_app. Qed.

Lemma DisposeMap_in_step s : in_step s → in_step (DisposeMap s).
Proof.
  intros [Hph Hcred]. unfold DisposeMap.
  destruct (_mapInstance s) as [m|] eqn:Hinst.
  - assert (in_step {| _map := Some (fresh (dom (promises s))); _mapInstance := None;
                       _mapResolver := fresh (dom (promises s)); apiKey := apiKey s;
                       promises := <[fresh (dom (promises s)) := None]> (promises s);
                       native := native s ++ [Dispose m] |}) as Hgoal.
    { split; simpl.
      - rewrite phase_snoc, Hph. simpl. by rewrite decide_True.
      - apply Forall_app. split; [done|]. by apply Forall_singleton. }
    by destruct (_map s).
  - destruct (_map s); split; by rewrite ?Hinst.
Qed.

Lemma DisposeMap_no_instance s : _mapInstance (DisposeMap s) = None.
Proof. unfold DisposeMap. destruct (_map s), (_mapInstance s) eqn:Hinst; done. Qed.

Lemma DisposeMap_apiKey s : apiKey (DisposeMap s) = apiKey s.
Proof. unfold DisposeMap. destruct (_map s), (_mapInstance s); done. Qed.

Lemma default_credentials_ok key o m el :
  has_credentials key (NewMap m el (default_credentials key o)) = true.
Proof.
  unfold default_credentials, has_credentials.
  destruct (credentials o) as [c|] eqn:Hc; simpl.
  - destruct (truthy_string c) eqn:Hct; simpl.
    + by rewrite Hc, Hct.
    + by rewrite bool_decide_eq_true_2, orb_true_r.
  - by rewrite bool_decide_eq_true_2, orb_true_r.
Qed.

Lemma CreateMap_in_step el o s : in_step s → in_step (CreateMap el o s).
Proof.
  intros Hs. unfold CreateMap.
  assert (in_step (match _mapInstance s with Some _ => DisposeMap s | None => s end)
          ∧ _mapInstance (match _mapInstance s with Some _ => DisposeMap s | None => s end)
            = None) as [[Hph Hcred] Hnone].
  { destruct (_mapInstance s) eqn:Hinst; [|done].
    split; [by apply DisposeMap_in_step|apply DisposeMap_no_instance]. }
  set (s1 := match _mapInstance s with Some _ => DisposeMap s | None => s end) in *.
  split; simpl.
  - rewrite phase_snoc, Hph, Hnone. done.
  - apply Forall_app. split; [done|]. apply Forall_singleton, default_credentials_ok.
Qed.

Lemma run_in_step ops s : in_step s → in_step (run ops s).
Proof.
  revert s. induction ops as [|o ops IH]; intros s Hs; simpl; [done|].
  apply IH. destruct o; simpl; [by apply CreateMap_in_step|by apply DisposeMap_in_step].
Qed.

Lemma run_apiKey ops s : apiKey (run ops s) = apiKey s.
Proof.
  revert s. induction ops as [|o ops IH]; intros s; simpl; [done|].
  rewrite IH. destruct o; simpl; [|apply DisposeMap_apiKey].
  unfold CreateMap. simpl. destruct (_mapInstance s); [apply DisposeMap_apiKey|done].
Qed.

Lemma new_in_step key : in_step (new key).
Proof. split; simpl; [done|apply Forall_nil_2]. Qed.

(** X12: in every state the service reaches from its constructor, the
    native calls made so far create and dispose of maps in turn: a map is
    created only when none exists, the map disposed of is the one that
    exists, and the map that exists at the end is the stored instance. *)
Theorem native_calls_follow_protocol key ops :
  let s := run ops (new key) in
  phase (native s) = from_option OneMap NoMap (_mapInstance s).
Proof. intros s. apply (run_in_step ops (new key)), new_in_step. Qed.

Lemma default_credentials_explicit key o :
  default_credentials key o
  = {| credentials := Some match credentials o with
                           | Some c => if negb (bool_decide (c = "")) then c else key
                           | None => key
                           end;
       load_rest := load_rest o |}.
Proof.
  unfold default_credentials, truthy_string. destruct o as [[c|] rest]; simpl; [|done].
  by destruct (bool_decide (c = "")).
Qed.

Lemma CreateMap_apiKey_before s :
  apiKey (match _mapInstance s with Some _ => DisposeMap s | None => s end) = apiKey s.
Proof. destruct (_mapInstance s); [apply DisposeMap_apiKey|done]. Qed.

(** X15: in every state the service reaches from its constructor,
    [CreateMap] constructs the map, as its last native call, on the element
    it is given and with the translated options in which the credentials are
    kept when they are a non-empty string and replaced by the configured api
    key when they are missing or empty, every other option as translated. So
    every map the service has created was given credentials that are not
    empty, or the api key. *)
Theorem maps_are_created_with_credentials key ops el o :
  let s := run ops (new key) in
  let given := TranslateLoadOptions o in
  let sent :=
    {| credentials := Some match credentials given with
                           | Some c => if negb (bool_decide (c = "")) then c else key
                           | None => key
                           end;
       load_rest := load_rest given |} in
  last (native (CreateMap el o s))
  = Some (NewMap (length (native (CreateMap el o s)) - 1) el sent)
  ∧ ∀ m el' o', NewMap m el' o' ∈ native s →
      ∃ c, credentials o' = Some c ∧ (c ≠ "" ∨ c = key).
Proof.
  intros s given sent. split.
  - unfold CreateMap. simpl. rewrite last_snoc, length_app. simpl.
    rewrite default_credentials_explicit, CreateMap_apiKey_before.
    subst s. rewrite run_apiKey. simpl. do 3 f_equal. lia.
  - pose proof (run_in_step ops (new key) (new_in_step key)) as [_ Hcred].
    rewrite run_apiKey in Hcred. simpl in Hcred. fold s in Hcred.
    intros m el' o' Hin. rewrite Forall_forall in Hcred.
    specialize (Hcred _ Hin). simpl in Hcred.
    destruct (credentials o') as [c|]; [|done]. exists c. split; [done|].
    apply orb_prop in Hcred as [Hc|Hc].
    + left. unfold truthy_string in Hc. apply negb_true_iff, bool_decide_eq_false in Hc. done.
    + right. by apply bool_decide_eq_true in Hc.
Qed.

End ServiceProtocol.

Section ServicePromises.
Import BingMapService BingMapProtocol.
Context `{BingConversions}.

(** *** Promises that were fulfilled *)

Lemma DisposeMap_settled s p v :
  promises s !! p = Some v → promises (DisposeMap s) !! p = Some v.
Proof.
  intros Hp. unfold DisposeMap. destruct (_mapInstance s) as [m|].
  - assert (fresh (dom (promises s)) ≠ p) as Hne.
    { intros <-. apply (is_fresh (dom (promises s))), elem_of_dom. eauto. }
    destruct (_map s); simpl; by rewrite lookup_insert_ne.
  - by destruct (_map s).
Qed.

Lemma resolve_settled q m' ps p m :
  ps !! p = Some (Some m) → resolve q m' ps !! p = Some (Some m).
Proof.
  intros Hp. unfold resolve. destruct (ps !! q) as [[m0|]|] eqn:Hq; try done.
  rewrite lookup_insert_ne; [done|]. intros ->. congruence.
Qed.

Lemma step_settled s o p m :
  promises s !! p = Some (Some m) → promises (step s o) !! p = Some (Some m).
Proof.
  intros Hp. destruct o as [el mapOptions|]; simpl.
  - apply resolve_settled. destruct (_mapInstance s); [by apply DisposeMap_settled|done].
  - by apply DisposeMap_settled.
Qed.

Lemma DisposeMap_length s : length (native s) ≤ length (native (DisposeMap s)).
Proof.
  unfold DisposeMap. destruct (_map s), (_mapInstance s); simpl; rewrite ?length_app; simpl; lia.
Qed.

Lemma DisposeMap_map_fresh s p :
  is_Some (promises s !! p) → _map s ≠ Some p → _map (DisposeMap s) ≠ Some p.
Proof.
  intros Hp Hne. unfold DisposeMap. destruct (_mapInstance s) as [m|].
  - assert (fresh (dom (promises s)) ≠ p) as Hfresh.
    { intros Heq. apply (is_fresh (dom (promises s))). rewrite Heq. by apply elem_of_dom. }
    destruct (_map s); simpl; congruence.
  - destruct (_map s) eqn:Hm; simpl; congruence.
Qed.

Lemma DisposeMap_stale m p s : stale m p s → stale m p (DisposeMap s).
Proof.
  intros (Hp & Hmap & Hinst & Hlen). split_and!.
  - by apply DisposeMap_settled.
  - apply DisposeMap_map_fresh; eauto.
  - by rewrite DisposeMap_no_instance.
  - pose proof (DisposeMap_length s). lia.
Qed.

Lemma step_stale m p s o : stale m p s → stale m p (step s o).
Proof.
  intros Hs. destruct o as [el mapOptions|]; simpl; [|by apply DisposeMap_stale].
  unfold CreateMap.
  assert (stale m p (match _mapInstance s with Some _ => DisposeMap s | None => s end))
    as (Hp & Hmap & Hinst & Hlen).
  { destruct (_mapInstance s); [by apply DisposeMap_stale|done]. }
  set (s1 := match _mapInstance s with Some _ => DisposeMap s | None => s end) in *.
  split_and!; simpl.
  - by apply resolve_settled.
  - done.
  - intros [= Heq]. lia.
  - rewrite length_app. simpl. lia.
Qed.

Lemma run_stale m p ops s : stale m p s → stale m p (run ops s).
Proof.
  revert s. induction ops as [|o ops IH]; intros s Hs; simpl; [done|].
  by apply IH, step_stale.
Qed.

(** The stored instance is younger than the calls made so far. *)
Lemma run_instance_bound ops s :
  (∀ m, _mapInstance s = Some m → m < length (native s)) →
  ∀ m, _mapInstance (run ops s) = Some m → m < length (native (run ops s)).
Proof.
  revert s. induction ops as [|o ops IH]; intros s Hs; simpl; [done|].
  apply IH. destruct o as [el mapOptions|]; simpl.
  - intros m [= <-]. rewrite length_app. simpl. lia.
  - intros m. by rewrite DisposeMap_no_instance.
Qed.

(** X13: a promise that was fulfilled with a map stays fulfilled with it.
    So after [DisposeMap], and whatever the service does later, the promise
    that [_map] held before still yields the map that was disposed of, which
    is neither the stored instance nor a map that exists, while [_map] holds
    another promise. *)
Theorem promise_of_disposed_map_is_stale key ops ops' m p :
  let s := run ops (new key) in
  _mapInstance s = Some m → _map s = Some p →
  let s' := run ops' (DisposeMap s) in
  promises s' !! p = Some (Some m)
  ∧ (m ∉ live (native s'))
  ∧ _map s' ≠ Some p
  ∧ _mapInstance s' ≠ Some m.
Proof.
  intros s Hinst Hmap s'.
  assert (consistent s) as (_ & _ & Hmap0 & Hprom) by apply run_consistent, new_consistent.
  assert (p = _mapResolver s) as -> by congruence.
  assert (m < length (native s)) as Hlen.
  { apply (run_instance_bound ops (new key)); [done|exact Hinst]. }
  assert (stale m (_mapResolver s) s') as (Hp & Hmap' & Hinst' & _).
  { apply run_stale. split_and!.
    - apply DisposeMap_settled. by rewrite Hprom, Hinst.
    - unfold DisposeMap. rewrite Hinst, Hmap. simpl. intros [= Heq].
      apply (is_fresh (dom (promises s))). rewrite Heq. apply elem_of_dom. eauto.
    - by rewrite DisposeMap_no_instance.
    - pose proof (DisposeMap_length s). lia. }
  split_and!; try done.
  assert (consistent s') as (Hlive & _).
  { apply run_consistent, DisposeMap_consistent, run_consistent, new_consistent. }
  rewrite Hlive. destruct (_mapInstance s') as [m'|]; simpl.
  - intros ->%elem_of_singleton. done.
  - apply not_elem_of_empty.
Qed.

End ServicePromises.

Section ServiceMarkers.
Import BingMapService BingMapProtocol.
Context `{BingConversions}.

(** The default icon on a page: drawn when there is a document, refused
    when there is none. *)
Lemma default_icon_call `{Host} w :
  let r := fresh (dom (Marker.heap w)) in
  let w0 := Marker.with_heap (<[ r := default_iconInfo ]> (Marker.heap w)) w in
  Marker.CreateMarker (Some r) w0
  = if Marker.document w
    then (Return (toDataURL (Marker.canvas_marker_cmds default_iconInfo
                               {| width := 48; height := 48 |}
                               [ {| x := 10; y := 40 |}; {| x := 24; y := 30 |};
                                 {| x := 38; y := 40 |}; {| x := 24; y := 0 |} ])),
          Marker.log (Marker.Drawn (Marker.canvas_marker_cmds default_iconInfo
                               {| width := 48; height := 48 |}
                               [ {| x := 10; y := 40 |}; {| x := 24; y := 30 |};
                                 {| x := 38; y := 40 |}; {| x := 24; y := 0 |} ])) w0)
    else (Throw (Error "Document context (window.document) is required for canvas markers."),
          w0).
Proof.
  intros r w0. subst w0.
  unfold Marker.CreateMarker, Marker.deref. simpl. rewrite lookup_insert_eq. simpl.
  unfold Marker.CreateCanvasMarker, Marker.deref. simpl.
  destruct (Marker.document w); simpl; [|done].
  rewrite lookup_insert_eq. simpl. done.
Qed.

(** X14: the body of [CreateMarker] fails exactly when the translated
    options have no icon and there is no document; it then throws the error
    of the canvas marker and pushes nothing. When it succeeds it pushes
    exactly the pushpin it returns, at the translated position, with an icon
    and with the other translated options kept; the icon cache is as before.
    With an icon in the translated options the pushpin carries them as they
    are and the marker state is untouched. *)
Theorem CreateMarker_pushes_one_pushpin `{Host} options w entities :
  let out := CreateMarker options w entities in
  ((∃ e, out.1.1 = Throw e) ↔
     icon (TranslateMarkerOptions options) = None ∧ Marker.document w = false)
  ∧ (∀ e, out.1.1 = Throw e →
       e = Error "Document context (window.document) is required for canvas markers."
       ∧ out.2 = entities
       ∧ Marker.MarkerCache out.1.2 = Marker.MarkerCache w
       ∧ Marker.trace out.1.2 = Marker.trace w)
  ∧ (∀ pushpin, out.1.1 = Return pushpin →
       out.2 = entities ++ [pushpin]
       ∧ pushpin_location pushpin = TranslateLocation_position options
       ∧ pushpin_rest (pushpin_options pushpin)
         = pushpin_rest (TranslateMarkerOptions options)
       ∧ is_Some (icon (pushpin_options pushpin))
       ∧ Marker.MarkerCache out.1.2 = Marker.MarkerCache w)
  ∧ (is_Some (icon (TranslateMarkerOptions options)) →
       out = (Return {| pushpin_location := TranslateLocation_position options;
                        pushpin_options := TranslateMarkerOptions options |},
              w,
              entities ++ [ {| pushpin_location := TranslateLocation_position options;
                               pushpin_options := TranslateMarkerOptions options |} ])).
Proof.
  intros out. subst out. unfold CreateMarker.
  destruct (icon (TranslateMarkerOptions options)) as [ic|] eqn:Hicon.
  - simpl. split_and!.
    + split; [intros [e [=]]|intros [[=] _]].
    + intros e [=].
    + intros pushpin [= <-]. simpl. rewrite Hicon. eauto.
    + done.
  - rewrite default_icon_call. destruct (Marker.document w) eqn:Hdoc; simpl.
    + rewrite lookup_insert_eq. simpl. split_and!.
      * split; [intros [e [=]]|intros [_ [=]]].
      * intros e [=].
      * intros pushpin [= <-]. simpl. eauto 10.
      * intros [? [=]].
    + split_and!.
      * split; eauto.
      * intros e [= <-]. done.
      * intros pushpin [=].
      * intros [? [=]].
Qed.

End ServiceMarkers.

(** ** The further properties at concrete inputs *)
Section MoreAtExamples.
Import Marker Examples MoreExamples.


Lemma returned_image_is_memoized_witness :
  ∃ s, (@CreateDynmaicCircleMarker example_host (Some 0) (page_with (circle "a"))).1
       = Return s.
Proof.
  destruct (@returned_image_is_memoized example_host DynmaicCircleMarker
              (page_with (circle "a")) 0 (circle "a") "a"
              [Store 1 (circle "a"); Create (Some 1)]
              eq_refl eq_refl eq_refl eq_refl eq_refl eq_refl eq_refl) as (s & Hs & _).
  exists s. exact Hs.
Defined.

Lemma other_ids_are_untouched_witness :
  MarkerCache (@CreateCanvasMarker example_host (Some 0) cached_world).2 !! "b"
  = MarkerCache cached_world !! "b".
Proof.
  apply (@other_ids_are_untouched example_host CanvasMarker cached_world 0 object_0 "b");
    [reflexivity|discriminate].
Defined.

Lemma size_agrees_with_cache_witness :
  ∃ e, MarkerCache (@CreateCanvasMarker example_host (Some 0) cached_world).2 !! "a" = Some e
       ∧ (@CreateCanvasMarker example_host (Some 0) cached_world).1
         = Return (markerIconString e).
Proof.
  apply (@size_agrees_with_cache example_host CanvasMarker cached_world 0 object_0 "a");
    reflexivity.
Defined.

Lemma handler_delivers_and_overwrites_witness :
  trace (@onload example_host 0 (square 10) loading_world)
  = [ Drawn [ SetWidth (10 * 2); SetHeight (10 * 2);
              DrawImageScaled "u1.png" 10 10 0 0 (10 * 2) (10 * 2) ];
      Called 7 (@toDataURL example_host
                  [ SetWidth (10 * 2); SetHeight (10 * 2);
                    DrawImageScaled "u1.png" 10 10 0 0 (10 * 2) (10 * 2) ]) 0 ]%float.
Proof.
  exact (proj1 (@handler_delivers_and_overwrites example_host 0 (square 10) loading_world
                  pending_image (scaled "u1.png") 7 eq_refl eq_refl eq_refl eq_refl)).
Defined.


Lemma promise_of_disposed_map_is_stale_witness :
  BingMapService.promises
    (@BingMapService.run example_conversions
       [ @BingMapService.DoCreateMap example_conversions 1 None ]
       (BingMapService.DisposeMap
          (@BingMapService.run example_conversions
             [ @BingMapService.DoCreateMap example_conversions 1 None ]
             (BingMapService.new "k")))) !! 0
  = Some (Some 0).
Proof.
  apply (@promise_of_disposed_map_is_stale example_conversions "k"
           [ @BingMapService.DoCreateMap example_conversions 1 None ]
           [ @BingMapService.DoCreateMap example_conversions 1 None ] 0 0);
    reflexivity.
Defined.

End MoreAtExamples.
